(** * Outline bulk document mover: the retrying HTTP client, the API client,
      the document tree and the relocation engine

    A shallow embedding of [utils.js] (retryFetch, parseApiError),
    [outlineAPI.js] (the OutlineAPI class) and [manager.js] (flattenApiDocs,
    buildTree, flattenTree, filterTopLevelSelected, moveDocumentRecursively),
    with the properties the specification states about them.

    Conventions of the embedding.
    - JavaScript numbers that the code uses as counters, HTTP statuses and
      millisecond delays are integers ([nat] or [Z]); [NaN] is kept apart
      where the code can produce it ([parseInt]).
    - Strings are [string], one character for each UTF-16 code unit of the
      JavaScript string, so the strings of the embedding are those of code
      units below 256. The white space that [trim] and [parseInt] skip is
      the white space and the line terminators of ECMAScript among these
      code units: U+0009 to U+000D, U+0020 and U+00A0.
    - A value that may be [null] or [undefined] is an [option]; the truthiness
      test of the source ([x && ...], [x ? a : b], [x || d]) is [truthy].
    - A plain object used as a dictionary is a [gmap string _] of its own
      properties. Where the code reads such an object with a key that comes
      from the response (the [map] of [buildTree]), the properties the
      object inherits are modelled too; the keys of the other dictionaries
      are tested with [hasOwnProperty] or are issued by the browser. *)

From Stdlib Require Import ZArith Ascii String List Bool Lia.
From stdpp Require Import base option list gmap strings pretty.

Open Scope string_scope.
Open Scope list_scope.

Set Warnings "-register-all".

(** ** JavaScript values *)

(** [Boolean(x)] for a value that is a string, [null] or [undefined]. *)
Definition truthy (x : option string) : bool :=
  match x with
  | Some s => negb (String.eqb s "")
  | None => false
  end.

(** [x || d] on such a value. *)
Definition orElse (x : option string) (d : string) : string :=
  match x with
  | Some s => if truthy x then s else d
  | None => d
  end.

(** The code units below 256 that are [WhiteSpace] or [LineTerminator]:
    tab, line feed, vertical tab, form feed, carriage return, space and
    no-break space. *)
Definition isWhiteSpace (c : ascii) : bool :=
  let n := nat_of_ascii c in
  Nat.eqb n 32 || (Nat.leb 9 n && Nat.leb n 13) || Nat.eqb n 160.

Fixpoint trimStart (s : string) : string :=
  match s with
  | String c rest => if isWhiteSpace c then trimStart rest else s
  | EmptyString => EmptyString
  end.

Definition revString (s : string) : string :=
  string_of_list_ascii (rev (list_ascii_of_string s)).

(** [s.trim()] *)
Definition trim (s : string) : string :=
  revString (trimStart (revString (trimStart s))).

(** A number that may be [NaN]. *)
Inductive Num :=
  | Finite (z : Z)
  | NaN.

Definition numMul (a : Num) (k : Z) : Num :=
  match a with
  | Finite z => Finite (z * k)
  | NaN => NaN
  end.

Definition digitVal (c : ascii) : option Z :=
  let n := nat_of_ascii c in
  if Nat.leb 48 n && Nat.leb n 57 then Some (Z.of_nat (n - 48)) else None.

(** The longest prefix of decimal digits, read as a number; [NaN] when the
    prefix is empty. *)
Fixpoint digitsPrefix (s : string) (acc : Num) : Num :=
  match s with
  | String c rest =>
      match digitVal c with
      | Some d =>
          digitsPrefix rest
            (Finite (10 * (match acc with Finite a => a | NaN => 0 end) + d))
      | None => acc
      end
  | EmptyString => acc
  end.

(** [parseInt(s, 10)] *)
Definition parseInt10 (s : string) : Num :=
  match trimStart s with
  | String "-" rest => numMul (digitsPrefix rest NaN) (-1)
  | String "+" rest => digitsPrefix rest NaN
  | t => digitsPrefix t NaN
  end.

(** Parsed JSON. *)
Inductive Json :=
  | JNull
  | JBool (b : bool)
  | JNum (z : Z)
  | JStr (s : string)
  | JArr (items : list Json)
  | JObj (fields : list (string * Json)).

(** Errors the code throws or lets through. *)
Inductive JsError :=
  | Error (message : string)
  | TypeError (message : string)
  | SyntaxError (message : string)
  | OutlineApiError (message : string) (status : Z).

(** ** config.js *)

Definition FETCH_TIMEOUT : Z := 8000.
Definition MAX_RETRIES : nat := 3.
Definition INITIAL_BACKOFF : Z := 500.

(** ** utils.js: the retrying client *)

(** What the code reads of a fetch [Response]: [status], [ok], the two
    headers it asks for, and what [json()] and [text()] resolve with
    ([None] when they reject). *)
Record Response := mkResponse {
  status : Z;
  ok : bool;
  retryAfter : option string;
  contentType : option string;
  json : option Json;
  text : option string
}.

(** One call of [fetchWithTimeout]: it resolves with a response, or rejects
    with the transport's error or with [Error "Request timed out"]. *)
Inductive Outcome :=
  | Responds (r : Response)
  | Fails (e : JsError).

Definition timedOut : Outcome := Fails (Error "Request timed out").

(** What a call of [retryFetch] settles with. Falling off the end of the
    [for] loop resolves the promise with [undefined]. *)
Inductive FetchResult :=
  | Resolved (r : Response)
  | ResolvedUndefined
  | Rejected (e : JsError).

Inductive Event :=
  | EvFetch (attempt : nat)
  | EvSleep (delay : Num).

(** [backoff * Math.pow(2, attempt)] *)
Definition backoffDelay (backoff : Z) (attempt : nat) : Num :=
  Finite (backoff * 2 ^ Z.of_nat attempt).

(** The delay after a 429 response:
    [retryAfterHeader ? parseInt(retryAfterHeader, 10) * 1000
                      : backoff * Math.pow(2, attempt)]. *)
Definition rateLimitDelay (response : Response) (backoff : Z) (attempt : nat) : Num :=
  if truthy (retryAfter response)
  then numMul (parseInt10 (default "" (retryAfter response))) 1000
  else backoffDelay backoff attempt.

(** The body of [for (let attempt = 0; attempt <= maxRetries; attempt++)],
    over the values [attempt] still has to take. [fetch attempt] is what the
    call of [fetchWithTimeout] made in that iteration settles with. The
    [continue] of the 429 branch and the end of the [catch] block both go on
    with the next value of [attempt]. *)
Fixpoint retryLoop (fetch : nat -> Outcome) (maxRetries : nat) (backoff : Z)
    (attempts : list nat) : list Event * FetchResult :=
  match attempts with
  | [] => ([], ResolvedUndefined)
  | attempt :: rest =>
      match fetch attempt with
      | Responds response =>
          if Z.eqb (status response) 429 then
            let delay := rateLimitDelay response backoff attempt in
            let '(evs, res) := retryLoop fetch maxRetries backoff rest in
            (EvFetch attempt :: EvSleep delay :: evs, res)
          else ([EvFetch attempt], Resolved response)
      | Fails error =>
          if Nat.eqb attempt maxRetries then ([EvFetch attempt], Rejected error)
          else
            let delay := backoffDelay backoff attempt in
            let '(evs, res) := retryLoop fetch maxRetries backoff rest in
            (EvFetch attempt :: EvSleep delay :: evs, res)
      end
  end.

Definition retryFetch (fetch : nat -> Outcome) (maxRetries : nat) (backoff : Z)
    : list Event * FetchResult :=
  retryLoop fetch maxRetries backoff (seq 0 (S maxRetries)).

(** The attempts a run made. *)
Definition attemptsMade (evs : list Event) : nat :=
  length (List.filter (fun e => match e with EvFetch _ => true | EvSleep _ => false end) evs).

(** Whether the loop goes on to the next value of [attempt] after this
    outcome. *)
Definition retries (maxRetries attempt : nat) (o : Outcome) : bool :=
  match o with
  | Responds response => Z.eqb (status response) 429
  | Fails _ => negb (Nat.eqb attempt maxRetries)
  end.

(** The delay slept after an outcome that makes the loop go on. *)
Definition delayAfter (fetch : nat -> Outcome) (backoff : Z) (attempt : nat) : Num :=
  match fetch attempt with
  | Responds response => rateLimitDelay response backoff attempt
  | Fails _ => backoffDelay backoff attempt
  end.

(** The events of the iterations that go on to the next one. *)
Definition goingOn (fetch : nat -> Outcome) (backoff : Z) (attempts : list nat) : list Event :=
  flat_map (fun j => [EvFetch j; EvSleep (delayAfter fetch backoff j)]) attempts.

(** The specification's reading of rate limiting: however many 429 responses
    come first, the first other response is the one returned. *)
Definition rateLimitOutsideBudget : Prop :=
  forall fetch maxRetries backoff k r,
    (forall j, j < k -> exists r429, fetch j = Responds r429 /\ status r429 = 429%Z) ->
    fetch k = Responds r -> status r <> 429%Z ->
    snd (retryFetch fetch maxRetries backoff) = Resolved r.

Definition limited (hint : option string) : Response :=
  {| status := 429; ok := false; retryAfter := hint; contentType := None;
     json := None; text := Some "" |}.

Definition okResponse (body : Json) : Response :=
  {| status := 200; ok := true; retryAfter := None;
     contentType := Some "application/json"; json := Some body; text := None |}.

(** Two timeouts, then 200. *)
Definition timesOutTwice (attempt : nat) : Outcome :=
  if Nat.ltb attempt 2 then timedOut else Responds (okResponse JNull).

(** A server that answers 429 every time. *)
Definition alwaysLimited (hint : option string) (attempt : nat) : Outcome :=
  Responds (limited hint).

(** A transport that never answers in time. *)
Definition alwaysTimesOut (attempt : nat) : Outcome := timedOut.

(** 429 with [Retry-After: 2] four times, then 200. *)
Definition limitedFourTimes (attempt : nat) : Outcome :=
  if Nat.ltb attempt 4 then Responds (limited (Some "2")) else Responds (okResponse JNull).

(** ** Completions and the session monad *)

(** How an [async] function ends. [OutOfFuel] stands for a [while (true)]
    loop that has not ended within the iterations the embedding was given. *)
Inductive Completion (A : Type) :=
  | Returns (a : A)
  | Throws (e : JsError)
  | OutOfFuel.
Arguments Returns {A} a.
Arguments Throws {A} e.
Arguments OutOfFuel {A}.

(** The body of a request: the object the code passes to [JSON.stringify]. *)
Inductive Payload :=
  | CollectionsCreate (name : string)
  | DocumentsCreate (title text collectionId : string) (publish : bool)
      (parentDocumentId : option string)
  | CollectionsList (offset limit : nat)
  | CollectionsDocuments (id : string) (offset limit : nat)
  | DocumentsMove (id collectionId : string) (parentDocumentId : option string)
  | DocumentsInfo (id : string).

(** A POST request: the endpoint, the bearer token of the headers and the
    body. *)
Record Request := mkRequest {
  endpoint : string;
  bearer : string;
  body : Payload
}.

(** The remote side: for the request that is the [n]-th of the session,
    what each attempt of its [retryFetch] call settles with. *)
Definition Network : Type := nat -> Request -> nat -> Outcome.

(** An [async] function of the client: it runs from the requests issued so
    far (oldest first) and leaves the extended list. *)
Definition Api (A : Type) : Type := list Request -> list Request * Completion A.

Definition ret {A} (a : A) : Api A := fun log => (log, Returns a).

Definition throw {A} (e : JsError) : Api A := fun log => (log, Throws e).

Definition bind {A B} (m : Api A) (k : A -> Api B) : Api B :=
  fun log =>
    match m log with
    | (log', Returns a) => k a log'
    | (log', Throws e) => (log', Throws e)
    | (log', OutOfFuel) => (log', OutOfFuel)
    end.

Declare Scope api_scope.
Delimit Scope api_scope with api.
Notation "'let!' x ':=' m 'in' k" := (bind m (fun x => k))
  (at level 10, x name, m at level 100, k at level 200) : api_scope.
Notation "m ';;;' k" := (bind m (fun _ => k))
  (at level 100, k at level 200, right associativity) : api_scope.
Open Scope api_scope.

(** A JavaScript value that is parsed JSON or [undefined]. *)
Inductive Value :=
  | Undefined
  | Val (j : Json).

Definition null : Value := Val JNull.

Fixpoint ownProperty (key : string) (fields : list (string * Json)) : Value :=
  match fields with
  | [] => Undefined
  | (k, v) :: rest => if String.eqb k key then Val v else ownProperty key rest
  end.

(** [v.key] for one of the keys the client reads ([data], [id]): a
    [TypeError] on [null] and [undefined], [undefined] on a value that is
    not an object holding the key. *)
Definition getProp (v : Value) (key : string) : Completion Value :=
  match v with
  | Undefined => Throws (TypeError ("Cannot read properties of undefined (reading '" +:+ key +:+ "')"))
  | Val JNull => Throws (TypeError ("Cannot read properties of null (reading '" +:+ key +:+ "')"))
  | Val (JObj fields) => Returns (ownProperty key fields)
  | Val _ => Returns Undefined
  end.

Definition liftC {A} (c : Completion A) : Api A := fun log => (log, c).

(** [s.indexOf(sub) !== -1] *)
Definition includesText (sub s : string) : bool :=
  match String.index 0 sub s with
  | Some _ => true
  | None => false
  end.

Section Client.

(** [JSON.stringify] on parsed JSON. *)
Variable JSON_stringify : Json -> string.

Variable net : Network.

(** utils.js, [parseApiError]: the message starts with the status; the
    [try] block appends the serialized JSON body, or the text of the body,
    or the default text when the text is empty; the [catch] block appends
    the default text when reading the body rejects. *)
Definition parseApiError (response : Response) (defaultErrorText : string) : string :=
  let errorMsg := "Error (Status: " +:+ pretty (status response) +:+ ")" in
  if truthy (contentType response)
     && includesText "application/json" (default "" (contentType response))
  then
    match json response with
    | Some errorData => errorMsg +:+ " - " +:+ JSON_stringify errorData
    | None => errorMsg +:+ " - " +:+ defaultErrorText
    end
  else
    match text response with
    | Some errorText => errorMsg +:+ " - " +:+ orElse (Some errorText) defaultErrorText
    | None => errorMsg +:+ " - " +:+ defaultErrorText
    end.

(** [await retryFetch(endpoint, {method: "POST", headers, body})] with the
    default [maxRetries] and [backoff]. *)
Definition awaitRetryFetch (req : Request) : Api (option Response) :=
  fun log =>
    (log ++ [req],
     match snd (retryFetch (net (length log) req) MAX_RETRIES INITIAL_BACKOFF) with
     | Resolved r => Returns (Some r)
     | ResolvedUndefined => Returns None
     | Rejected e => Throws e
     end).

(** [response.ok] and [response.status] need a response. *)
Definition defined (response : option Response) : Api Response :=
  match response with
  | Some r => ret r
  | None => throw (TypeError "Cannot read properties of undefined (reading 'ok')")
  end.

(** [await response.json()] *)
Definition awaitJson (response : Response) : Api Value :=
  match json response with
  | Some j => ret (Val j)
  | None => throw (SyntaxError "Unexpected token in JSON")
  end.

(** The check every operation but [getDocument] makes on its response. *)
Definition throwUnlessOk (response : Response) (defaultErrorText : string) : Api unit :=
  if negb (ok response)
  then throw (OutlineApiError (parseApiError response defaultErrorText) (status response))
  else ret tt.

(** outlineAPI.js: the object holds the base URL without trailing slashes
    and the token. *)
Record OutlineAPI := mkOutlineAPI {
  baseUrl : string;
  apiToken : string
}.

Definition post (api : OutlineAPI) (verb : string) (payload : Payload) : Request :=
  mkRequest (baseUrl api +:+ "/api/" +:+ verb) (apiToken api) payload.

Definition createCollection (api : OutlineAPI) (collectionName : string) : Api Value :=
  let! response := awaitRetryFetch (post api "collections.create" (CollectionsCreate collectionName)) in
  let! response := defined response in
  throwUnlessOk response "Collection creation failed";;;
  let! data := awaitJson response in
  let! inner := liftC (getProp data "data") in
  liftC (getProp inner "id").

(** [parentDocumentId && parentDocumentId.trim() !== ""] *)
Definition given (parentId : string) : bool :=
  truthy (Some parentId) && negb (String.eqb (trim parentId) "").

Definition createDocument (api : OutlineAPI) (title text collectionId : string)
    (publish : bool) (parentDocumentId : string) : Api Value :=
  let payload :=
    DocumentsCreate title text collectionId publish
      (if given parentDocumentId then Some parentDocumentId else None) in
  let! response := awaitRetryFetch (post api "documents.create" payload) in
  let! response := defined response in
  throwUnlessOk response "Document creation failed";;;
  let! data := awaitJson response in
  liftC (getProp data "data").

(** The page size of [listCollections]. *)
Definition limit : nat := 25.

(** The [while (true)] loop of [listCollections], for at most [fuel]
    rounds. *)
Fixpoint listCollectionsLoop (api : OutlineAPI) (fuel : nat)
    (collections : list Json) (offset : nat) : Api (list Json) :=
  match fuel with
  | 0 => liftC OutOfFuel
  | S fuel' =>
      let! response := awaitRetryFetch (post api "collections.list" (CollectionsList offset limit)) in
      let! response := defined response in
      throwUnlessOk response "Listing collections failed";;;
      let! data := awaitJson response in
      let! page := liftC (getProp data "data") in
      match page with
      | Val (JArr items) =>
          let collections := collections ++ items in
          if Nat.ltb (length items) limit then ret collections
          else listCollectionsLoop api fuel' collections (offset + limit)
      | _ => ret collections
      end
  end.

Definition listCollections (api : OutlineAPI) (fuel : nat) : Api (list Json) :=
  listCollectionsLoop api fuel [] 1.

Definition getCollectionDocuments (api : OutlineAPI) (collectionId : string) : Api Value :=
  let! response := awaitRetryFetch (post api "collections.documents" (CollectionsDocuments collectionId 1 1000)) in
  let! response := defined response in
  throwUnlessOk response "Fetching collection documents failed";;;
  let! data := awaitJson response in
  liftC (getProp data "data").

Definition movePayload (documentId destCollectionId destParentId : string) : Payload :=
  DocumentsMove documentId destCollectionId
    (if given destParentId then Some destParentId else None).

Definition moveDocument (api : OutlineAPI) (documentId destCollectionId destParentId : string)
    : Api Value :=
  let! response := awaitRetryFetch (post api "documents.move" (movePayload documentId destCollectionId destParentId)) in
  let! response := defined response in
  throwUnlessOk response "Moving document failed";;;
  let! data := awaitJson response in
  liftC (getProp data "data").

Definition getDocument (api : OutlineAPI) (documentId : string) : Api Value :=
  let! response := awaitRetryFetch (post api "documents.info" (DocumentsInfo documentId)) in
  let! response := defined response in
  if negb (ok response) then ret null
  else
    let! data := awaitJson response in
    liftC (getProp data "data").

End Client.

(** ** manager.js: documents *)

(** A document as the API returns it and as the tree holds it. [children]
    is [None] when the property is missing. *)
Inductive Doc := mkDoc {
  id : string;
  title : string;
  parentDocumentId : option string;
  children : option (list Doc)
}.

(** [docWithoutChildren]: the shallow copy [flattenApiDocs] pushes. *)
Record FlatDoc := mkFlatDoc {
  flat_id : string;
  flat_title : string;
  flat_parentDocumentId : option string
}.

(** The body of [docs.forEach] in [flattenApiDocs]. The assignment to
    [doc.parentDocumentId] is seen in the copy pushed right after it. *)
Fixpoint flattenApiDoc (parentId : option string) (doc : Doc) : list FlatDoc :=
  let assigned :=
    if truthy parentId && negb (truthy (parentDocumentId doc))
    then parentId else parentDocumentId doc in
  mkFlatDoc (id doc) (title doc) assigned ::
  match children doc with
  | Some kids => flat_map (flattenApiDoc (Some (id doc))) kids
  | None => []
  end.

Definition flattenApiDocs (docs : list Doc) (parentId : option string) : list FlatDoc :=
  flat_map (flattenApiDoc parentId) docs.

(** *** buildTree

    [buildTree] works on the objects of its argument in place: it gives each
    a fresh [children] array, files each under its id in [map], and pushes
    each onto the [children] of the object [map] holds for its parent id.
    The objects are the store [heap]; the object at position [i] of the
    argument has address [i], and [children], [roots] and [map] hold
    addresses.

    [map] is a plain object, [{}]. It is the [gmap] of the addresses filed
    in it, and the entry of the key [__proto__] stands for its prototype:
    [map["__proto__"] = doc] runs the setter every object inherits and
    makes [doc] the prototype of [map], and [map["__proto__"]] reads the
    prototype back. A key with no entry is read from the prototype: from
    the document that was made the prototype, if any, and then from
    [Object.prototype]. A document has the properties the code reads:
    [id], [title], [parentDocumentId] and, in [buildTree], [children]. *)

Record Node := mkNode {
  node_doc : FlatDoc;
  node_children : list nat
}.

Record Built := mkBuilt {
  roots : list nat;
  heap : list Node;
  documentMap : gmap string nat
}.

(** First [forEach]: [doc.children = []; map[doc.id] = doc]. *)
Fixpoint indexDocs (i : nat) (docs : list FlatDoc) (map : gmap string nat)
    : gmap string nat :=
  match docs with
  | [] => map
  | doc :: rest => indexDocs (S i) rest (<[flat_id doc := i]> map)
  end.

(** The properties of [Object.prototype]: each is a function, but for
    [__proto__], which reads as [Object.prototype] itself on an object
    whose prototype was not replaced. *)
Definition objectPrototypeNames : list string :=
  ["constructor"; "hasOwnProperty"; "isPrototypeOf"; "propertyIsEnumerable";
   "toLocaleString"; "toString"; "valueOf"; "__proto__";
   "__defineGetter__"; "__defineSetter__"; "__lookupGetter__"; "__lookupSetter__"].

(** Whether the own property [key] of a listed document is truthy during
    the second pass, and [None] when the document has no such property. *)
Definition ownPropertyTruthy (doc : FlatDoc) (key : string) : option bool :=
  if String.eqb key "id" then Some (truthy (Some (flat_id doc)))
  else if String.eqb key "title" then Some (truthy (Some (flat_title doc)))
  else if String.eqb key "parentDocumentId" then Some (truthy (flat_parentDocumentId doc))
  else if String.eqb key "children" then Some true
  else None.

(** Whether [map[key]] is truthy for a [key] that has no entry in [map]:
    the value is inherited, and is no listed document. *)
Definition inheritedTruthy (docs : list FlatDoc) (map : gmap string nat) (key : string) : bool :=
  let fromObjectPrototype := bool_decide (key ∈ objectPrototypeNames) in
  match map !! "__proto__" ≫= (docs !!.) with
  | Some prototype => default fromObjectPrototype (ownPropertyTruthy prototype key)
  | None => fromObjectPrototype
  end.

(** The error of [x.children.push(doc)] for an [x] without [children]. *)
Definition noChildrenError : JsError :=
  TypeError "Cannot read properties of undefined (reading 'push')".

(** The test [doc.parentDocumentId && map[doc.parentDocumentId]] of the
    second pass and what follows it: the address of the object whose
    [children] the document is pushed onto, or [None] for [roots.push].
    A truthy inherited value has no [children] array, and
    [.children.push] throws on it. *)
Definition parentSlot (docs : list FlatDoc) (map : gmap string nat) (doc : FlatDoc)
    : Completion (option nat) :=
  if truthy (flat_parentDocumentId doc)
  then
    let key := default "" (flat_parentDocumentId doc) in
    match map !! key with
    | Some parent => Returns (Some parent)
    | None =>
        if inheritedTruthy docs map key
        then Throws noChildrenError
        else Returns None
    end
  else Returns None.

Definition pushChild (child : nat) (parent : Node) : Node :=
  mkNode (node_doc parent) (node_children parent ++ [child]).

(** Second [forEach], over the documents from position [i] on; [whole] is
    the argument of [buildTree]. An exception ends it. *)
Fixpoint attachDocs (whole : list FlatDoc) (map : gmap string nat) (i : nat)
    (docs : list FlatDoc) (heap : list Node) (roots : list nat)
    : Completion (list Node * list nat) :=
  match docs with
  | [] => Returns (heap, roots)
  | doc :: rest =>
      match parentSlot whole map doc with
      | Returns (Some parent) =>
          attachDocs whole map (S i) rest (alter (pushChild i) parent heap) roots
      | Returns None => attachDocs whole map (S i) rest heap (roots ++ [i])
      | Throws e => Throws e
      | OutOfFuel => OutOfFuel
      end
  end.

(** [buildTree] returns [roots] and leaves [map] in [documentMap]; when the
    second pass throws, it returns nothing and [documentMap] is not
    assigned. *)
Definition buildTree (docs : list FlatDoc) : Completion Built :=
  let map := indexDocs 0 docs ∅ in
  match attachDocs docs map 0 docs (List.map (fun doc => mkNode doc []) docs) [] with
  | Returns (heap, roots) => Returns (mkBuilt roots heap map)
  | Throws e => Throws e
  | OutOfFuel => OutOfFuel
  end.

(** The document at an address, read with its subtree. [None] when an
    address is not in the store or the walk is deeper than [fuel]. *)
Fixpoint readDoc (fuel : nat) (heap : list Node) (a : nat) : option Doc :=
  match fuel with
  | 0 => None
  | S fuel' =>
      node ← heap !! a;
      kids ← mapM (readDoc fuel' heap) (node_children node);
      Some (mkDoc (flat_id (node_doc node)) (flat_title (node_doc node))
              (flat_parentDocumentId (node_doc node)) (Some kids))
  end.

(** The forest [buildTree] returns. *)
Definition readForest (b : Built) : option (list Doc) :=
  mapM (readDoc (length (heap b)) (heap b)) (roots b).

(** *** Trees of the specification *)

Inductive Tree :=
  | TreeNode (tid : string) (ttitle : string) (kids : list Tree).

Definition treeId (t : Tree) : string := match t with TreeNode i _ _ => i end.

Fixpoint treeIds (t : Tree) : list string :=
  match t with
  | TreeNode i _ kids => i :: flat_map treeIds kids
  end.

(** Modelled from the spec: [treeToNestedDocs], the nested-document form of a
    tree, is named by the specification and is not in the source. Each node
    becomes a document with its children nested; with [linked] a nested
    document also carries its parent's id, without it the field is left
    out, the two forms the API response can take. *)
Fixpoint treeToNestedDocs (linked : bool) (parent : option string) (t : Tree) : Doc :=
  match t with
  | TreeNode i ttl kids =>
      mkDoc i ttl (if linked then parent else None)
        (Some (List.map (treeToNestedDocs linked (Some i)) kids))
  end.

(** *** Selection and relocation *)

(** [selectedIds.includes(x)] *)
Definition includes (selectedIds : list string) (x : string) : bool :=
  existsb (String.eqb x) selectedIds.

(** The body of [tree.forEach] in [filterTopLevelSelected]. *)
Fixpoint filterTopLevelSelectedNode (selectedIds : list string) (node : Doc) : list Doc :=
  if includes selectedIds (id node) then [node]
  else
    match children node with
    | Some kids => flat_map (filterTopLevelSelectedNode selectedIds) kids
    | None => []
    end.

Definition filterTopLevelSelected (tree : list Doc) (selectedIds : list string) : list Doc :=
  flat_map (filterTopLevelSelectedNode selectedIds) tree.

(** The specification's words: the nodes in preorder, each with the ids of
    its ancestors, of which those are kept that are selected and have no
    selected ancestor. *)
Fixpoint preorder (ancestors : list string) (node : Doc) : list (list string * Doc) :=
  (ancestors, node) ::
  match children node with
  | Some kids => flat_map (preorder (id node :: ancestors)) kids
  | None => []
  end.

Definition topLevel (selectedIds : list string) (entry : list string * Doc) : bool :=
  includes selectedIds (id (snd entry))
  && forallb (fun a => negb (includes selectedIds a)) (fst entry).

Definition selectedWithoutSelectedAncestor (tree : list Doc) (selectedIds : list string)
    : list Doc :=
  List.map snd (List.filter (topLevel selectedIds) (flat_map (preorder []) tree)).

Section Relocation.

Variable JSON_stringify : Json -> string.

Variable net : Network.

(** [await api.moveDocument(doc.id, ...)], then the [for ... of] loop over
    [doc.children], each child awaited before the next. *)
Fixpoint moveDocumentRecursively (api : OutlineAPI) (doc : Doc)
    (destCollectionId destParentId : string) : Api unit :=
  moveDocument JSON_stringify net api (id doc) destCollectionId destParentId;;;
  match children doc with
  | Some kids =>
      (fix each (rest : list Doc) : Api unit :=
         match rest with
         | [] => ret tt
         | child :: rest' =>
             moveDocumentRecursively api child destCollectionId (id doc);;;
             each rest'
         end) kids
  | None => ret tt
  end.

End Relocation.

(** The requests a relocation is to issue, in order. *)
Fixpoint moveRequests (api : OutlineAPI) (doc : Doc) (destCollectionId destParentId : string)
    : list Request :=
  post api "documents.move" (movePayload (id doc) destCollectionId destParentId) ::
  match children doc with
  | Some kids => flat_map (fun child => moveRequests api child destCollectionId (id doc)) kids
  | None => []
  end.

(** Every move request is answered with a successful response whose body
    parses to something other than [null]. *)
Definition movesSucceed (net : Network) : Prop :=
  forall n req, exists r d,
    snd (retryFetch (net n req) MAX_RETRIES INITIAL_BACKOFF) = Resolved r
    /\ ok r = true /\ json r = Some d /\ d <> JNull.

(** ** The operations the properties are stated on *)

(** The mutating operations of the client, with their arguments. *)
Inductive Mutation :=
  | CreateCollection (collectionName : string)
  | CreateDocument (title text collectionId : string) (publish : bool)
      (parentDocumentId : string)
  | MoveDocument (documentId destCollectionId destParentId : string).

Definition runMutation (JSON_stringify : Json -> string) (net : Network)
    (api : OutlineAPI) (m : Mutation) : Api Value :=
  match m with
  | CreateCollection name => createCollection JSON_stringify net api name
  | CreateDocument ttl txt coll publish parent =>
      createDocument JSON_stringify net api ttl txt coll publish parent
  | MoveDocument doc coll parent => moveDocument JSON_stringify net api doc coll parent
  end.

(** The request each of them sends. *)
Definition mutationRequest (api : OutlineAPI) (m : Mutation) : Request :=
  match m with
  | CreateCollection name => post api "collections.create" (CollectionsCreate name)
  | CreateDocument ttl txt coll publish parent =>
      post api "documents.create"
        (DocumentsCreate ttl txt coll publish (if given parent then Some parent else None))
  | MoveDocument doc coll parent => post api "documents.move" (movePayload doc coll parent)
  end.



(** The [n]-th request of the session, [req], gets a successful response
    whose parsed body has [v] as its [data]. *)
Definition answers (net : Network) (n : nat) (req : Request) (v : Value) : Prop :=
  exists r d,
    snd (retryFetch (net n req) MAX_RETRIES INITIAL_BACKOFF) = Resolved r
    /\ ok r = true /\ json r = Some d /\ getProp (Val d) "data" = Returns v.

(** The request for page [i] of the listing. *)
Definition listRequest (api : OutlineAPI) (i : nat) : Request :=
  post api "collections.list" (CollectionsList (1 + limit * i) limit).

(** The collections of a payload that is an array. *)
Definition pageItems (v : Value) : list Json :=
  match v with
  | Val (JArr items) => items
  | _ => []
  end.

(** A payload that ends the listing: not an array, or an array shorter than
    the page size. *)
Definition lastPage (v : Value) : bool :=
  match v with
  | Val (JArr items) => Nat.ltb (length items) limit
  | _ => true
  end.

(** A remote side that answers every attempt of every request alike. *)
Definition constantNet (r : Response) : Network := fun _ _ _ => Responds r.

Definition serverError : Response :=
  {| status := 500; ok := false; retryAfter := None;
     contentType := Some "text/plain"; json := None; text := Some "boom" |}.

Definition unauthorized : Response :=
  {| status := 401; ok := false; retryAfter := None;
     contentType := Some "application/json";
     json := Some (JObj [("error", JStr "authentication_required")]); text := None |}.

Definition sampleApi : OutlineAPI := mkOutlineAPI "https://wiki.example" "token".

(** A stand-in for [JSON.stringify] in examples. *)
Definition sampleStringify (j : Json) : string := "<json>".

(** A listing of two pages: a full one, then one collection. *)
Definition twoPages (i : nat) : Value :=
  Val (JArr (if Nat.eqb i 0 then repeat (JStr "c") limit else [JStr "last"])).

Definition twoPageNet : Network :=
  fun n _ _ =>
    Responds (okResponse (JObj [("data", match twoPages n with Val j => j | Undefined => JNull end)])).

(** The tree [A -> [B, C]], [B -> [D]] of the specification. *)
Definition docD : Doc := mkDoc "D" "d" (Some "B") (Some []).
Definition docB : Doc := mkDoc "B" "b" (Some "A") (Some [docD]).
Definition docC : Doc := mkDoc "C" "c" (Some "A") (Some []).
Definition docA : Doc := mkDoc "A" "a" None (Some [docB; docC]).

(** A remote side on which every request succeeds. *)
Definition obligingNet : Network :=
  constantNet (okResponse (JObj [("data", JObj [("id", JStr "moved")])])).

(** ** Notions the tree properties are stated with *)

(** The addresses, counted from [i], of the documents that satisfy [f]. *)
Fixpoint positionsWhere (f : FlatDoc -> bool) (i : nat) (docs : list FlatDoc) : list nat :=
  match docs with
  | [] => []
  | doc :: rest => (if f doc then [i] else []) ++ positionsWhere f (S i) rest
  end.

(** The documents the second pass files under [slot]: under the object at
    an address, or among the roots for [None]. *)
Definition filedUnder (whole : list FlatDoc) (map : gmap string nat) (slot : option nat)
    (doc : FlatDoc) : bool :=
  match parentSlot whole map doc with
  | Returns s => bool_decide (s = slot)
  | _ => false
  end.

(** The documents the second pass throws at: the [parentDocumentId] is
    truthy, is the id of no listed document, and is a key that [map]
    inherits with a truthy value. *)
Definition namesInherited (whole : list FlatDoc) (doc : FlatDoc) : bool :=
  match flat_parentDocumentId doc with
  | Some p =>
      negb (String.eqb p "") && bool_decide (p ∉ List.map flat_id whole)
      && inheritedTruthy whole (indexDocs 0 whole ∅) p
  | None => false
  end.

(** The documents whose [parentDocumentId] is [parent]. *)
Definition hasParent (parent : option string) (doc : FlatDoc) : bool :=
  bool_decide (flat_parentDocumentId doc = parent).

(** The preorder listing of a tree, each node with the id of its parent. *)
Fixpoint preorderFlat (parent : option string) (t : Tree) : list FlatDoc :=
  match t with
  | TreeNode i ttl kids => mkFlatDoc i ttl parent :: flat_map (preorderFlat (Some i)) kids
  end.

Definition treeSize (t : Tree) : nat := length (treeIds t).

(** Where the trees of a forest start in its preorder listing, the listing
    starting at [off]. *)
Fixpoint topAddresses (off : nat) (forest : list Tree) : list nat :=
  match forest with
  | [] => []
  | t :: rest => off :: topAddresses (off + treeSize t) rest
  end.

(** A flat list with an orphan: [b] names a parent that is not listed. *)
Definition orphanDocs : list FlatDoc :=
  [mkFlatDoc "a" "first" None; mkFlatDoc "b" "orphan" (Some "gone");
   mkFlatDoc "c" "child" (Some "a")].

(** A flat list with an orphan whose parent id, the id of no listed
    document, is the name of a property every object inherits. *)
Definition inheritedNameDocs : list FlatDoc :=
  [mkFlatDoc "a" "first" None; mkFlatDoc "b" "orphan" (Some "constructor");
   mkFlatDoc "c" "child" (Some "a")].

(** The forest [A -> [B, C]], [B -> [D]] as a tree of the specification. *)
Definition sampleForest : list Tree :=
  [TreeNode "A" "a" [TreeNode "B" "b" [TreeNode "D" "d" []]; TreeNode "C" "c" []]].

(** Neither [p] nor a document of [others] names one of [ids] as its
    parent. *)
Definition namedByNone (ids : list string) (p : option string) (others : list FlatDoc) : Prop :=
  (forall x, x ∈ ids -> p <> Some x)
  /\ forall d x, d ∈ others -> x ∈ ids -> flat_parentDocumentId d <> Some x.

(** The store holds the documents of [whole], each with the addresses of
    the documents that name it as their parent. *)
Definition storeOf (whole : list FlatDoc) (heap : list Node) : Prop :=
  forall q d, whole !! q = Some d ->
    heap !! q = Some (mkNode d (positionsWhere (hasParent (Some (flat_id d))) 0 whole)).

(** * Further code of the repository *)

(** ** utils.js: what a run of [retryFetch] slept *)

(** The delays a run passed to [setTimeout], in order. *)
Definition sleeps (evs : list Event) : list Num :=
  flat_map (fun e => match e with EvSleep d => [d] | EvFetch _ => [] end) evs.

(** Their sum, when each is a number. *)
Fixpoint sumDelays (delays : list Num) : option Z :=
  match delays with
  | [] => Some 0%Z
  | Finite z :: rest => (fun s => (z + s)%Z) <$> sumDelays rest
  | NaN :: _ => None
  end.

(** ** outlineAPI.js: blank parent ids *)

(** Every character is white space (so also: the string is empty). *)
Definition allWhite (s : string) : bool :=
  forallb isWhiteSpace (list_ascii_of_string s).

(** A listing whose first page is full and whose second request fails. *)
Definition fullPage : Json := JObj [("data", JArr (repeat (JStr "c") limit))].

Definition failingSecondPageNet : Network :=
  fun n _ _ => if Nat.eqb n 0 then Responds (okResponse fullPage) else Responds serverError.

(** A listing in which every page is full. *)
Definition endlessNet : Network := constantNet (okResponse fullPage).

(** ** manager.js: flattenTree and populateDropdown *)

(** The ids of a document and of the documents below it, in preorder. *)
Fixpoint docIds (doc : Doc) : list string :=
  id doc ::
  match children doc with
  | Some kids => flat_map docIds kids
  | None => []
  end.

(** An entry [{ id, name, indent }] of a dropdown. *)
Record FlatEntry := mkFlatEntry {
  entry_id : string;
  entry_name : string;
  entry_indent : nat
}.

(** The body of [tree.forEach] in [flattenTree]; the name is
    [node.title || "(Untitled)"]. *)
Fixpoint flattenTreeNode (indent : nat) (node : Doc) : list FlatEntry :=
  mkFlatEntry (id node) (orElse (Some (title node)) "(Untitled)") indent ::
  match children node with
  | Some kids => flat_map (flattenTreeNode (indent + 1)) kids
  | None => []
  end.

Definition flattenTree (tree : list Doc) (indent : nat) : list FlatEntry :=
  flat_map (flattenTreeNode indent) tree.

(** An [<option>] element: its [value] and its [textContent]. *)
Record OptionElem := mkOption {
  option_value : string;
  option_text : string
}.

(** [" ".repeat(n)] *)
Fixpoint spaces (n : nat) : string :=
  match n with
  | 0 => ""
  | S n' => String " " (spaces n')
  end.

(** [populateDropdown]: the options the [<select>] element holds afterwards,
    whatever it held before. *)
Definition populateDropdown (items : list FlatEntry) (useIndentation : bool)
    : list OptionElem :=
  if negb useIndentation then
    List.map (fun item => mkOption (entry_id item) (entry_name item)) items
  else
    mkOption "" "Collection Root" ::
    List.map (fun item =>
                mkOption (entry_id item)
                  (spaces (entry_indent item * 2) +:+ entry_name item)) items.

(** The parent id the copy of a document gets in [flattenApiDocs], its
    container having the id [container]. *)
Definition flatParent (container : option string) (doc : Doc) : option string :=
  if truthy container && negb (truthy (parentDocumentId doc))
  then container else parentDocumentId doc.

(** ** buildTree: what the objects hold afterwards *)

(** The [children] array of the object at address [q]; empty when [q] is
    no address of the store. *)
Definition kidsOf (b : Built) (q : nat) : list nat :=
  default [] (node_children <$> heap b !! q).

(** A list in which the second and the third document have the same id, and
    the fourth names that id as its parent. *)
Definition duplicateDocs : list FlatDoc :=
  [mkFlatDoc "r" "root" None; mkFlatDoc "x" "first" (Some "r");
   mkFlatDoc "x" "second" (Some "r"); mkFlatDoc "k" "kid" (Some "x")].

(** A list in which the second document names itself as its parent. *)
Definition selfParentDocs : list FlatDoc :=
  [mkFlatDoc "r" "root" None; mkFlatDoc "s" "loop" (Some "s")].

(** ** manager.js: the handler of the Move button *)

(** What the handler reads from the page: the ids of the checked boxes
    ([getSelectedDocumentIds]) and the values of the four dropdowns. *)
Record MoveForm := mkMoveForm {
  checkedIds : list string;
  destinationCollection : string;
  destinationSubFolder : string;
  destinationFolder : string;
  collectionSelect : string
}.

(** [destinationSubFolder.value], or [destinationFolder.value] when that
    is empty: the destination parent the handler passes on. *)
Definition destFolderIdOf (form : MoveForm) : string :=
  if truthy (Some (destinationSubFolder form))
  then destinationSubFolder form else destinationFolder form.

(** The id a move request is for. *)
Definition movedId (req : Request) : option string :=
  match body req with
  | DocumentsMove i _ _ => Some i
  | _ => None
  end.

Section MoveClick.

Variable JSON_stringify : Json -> string.
Variable net : Network.

(** How the [data] of a response reads as the array of documents
    [flattenApiDocs] walks; a [TypeError] when it has no [forEach]. *)
Variable readDocs : Value -> Completion (list Doc).

(** [for (const doc of topLevelSelected) await moveDocumentRecursively(...)] *)
Fixpoint moveAll (api : OutlineAPI) (topLevelSelected : list Doc)
    (destCollectionId destFolderId : string) : Api unit :=
  match topLevelSelected with
  | [] => ret tt
  | doc :: rest =>
      moveDocumentRecursively JSON_stringify net api doc destCollectionId destFolderId;;;
      moveAll api rest destCollectionId destFolderId
  end.

(** The click handler of [moveBtn]: from the requests sent so far it gives
    the requests sent, the alerts shown, and how it ends, with the tree
    that replaces [documentTreeData] ([None] when it is left as it is).
    [getOutlineAPI] is what [await getOutlineAPI()] settles with. *)
Definition onMoveClick (getOutlineAPI : Completion OutlineAPI)
    (documentTreeData : list Doc) (form : MoveForm)
    : list Request -> list Request * list string * Completion (option Built) :=
  fun log =>
    let selectedIds := checkedIds form in
    if Nat.eqb (length selectedIds) 0 then
      (log, ["Please select at least one document to move."], Returns None)
    else
      let topLevelSelected := filterTopLevelSelected documentTreeData selectedIds in
      let destCollectionId := destinationCollection form in
      let destFolderId := destFolderIdOf form in
      if negb (truthy (Some destCollectionId)) then
        (log, ["Please select a destination collection."], Returns None)
      else
        match getOutlineAPI with
        | Throws e => (log, [], Throws e)
        | OutOfFuel => (log, [], OutOfFuel)
        | Returns api =>
            match moveAll api topLevelSelected destCollectionId destFolderId log with
            | (log1, Throws e) => (log1, [], Throws e)
            | (log1, OutOfFuel) => (log1, [], OutOfFuel)
            | (log1, Returns _) =>
                let shown := ["Documents moved successfully!"] in
                match getCollectionDocuments JSON_stringify net api (collectionSelect form) log1 with
                | (log2, Throws e) => (log2, shown, Throws e)
                | (log2, OutOfFuel) => (log2, shown, OutOfFuel)
                | (log2, Returns docs) =>
                    match readDocs docs with
                    | Returns flatSource =>
                        match buildTree (flattenApiDocs flatSource None) with
                        | Returns built => (log2, shown, Returns (Some built))
                        | Throws e => (log2, shown, Throws e)
                        | OutOfFuel => (log2, shown, OutOfFuel)
                        end
                    | Throws e => (log2, shown, Throws e)
                    | OutOfFuel => (log2, shown, OutOfFuel)
                    end
                end
            end
        end.

End MoveClick.

(** A remote side on which the first request succeeds and the later ones
    are refused. *)
Definition refusingNet : Network :=
  fun n _ _ =>
    if Nat.eqb n 0 then Responds (okResponse (JObj [("data", JObj [])]))
    else Responds serverError.

(** A reading of a response for examples: no documents. *)
Definition readNoDocs (v : Value) : Completion (list Doc) := Returns [].

(** The form of an example: [B] and [D] checked, destination collection
    [X], no sub folder, folder [P], source collection [S]. *)
Definition sampleForm : MoveForm :=
  mkMoveForm ["B"; "D"] "X" "" "P" "S".

(** ** options.js and the constructor of OutlineAPI *)

(** [c.repeat(n)] for a one-character string. *)
Fixpoint repeatChar (c : ascii) (n : nat) : string :=
  match n with
  | 0 => ""
  | S n' => String c (repeatChar c n')
  end.

Fixpoint dropChars (n : nat) (s : string) : string :=
  match n, s with
  | S n', String _ rest => dropChars n' rest
  | _, _ => s
  end.

(** [s.slice(-n)] for [n > 0]: the last [n] characters, or all of [s] when
    it is shorter. *)
Definition sliceLast (n : nat) (s : string) : string :=
  dropChars (String.length s - n) s.

(** [maskToken]: [token.length > 5 ? "*".repeat(token.length - 5) +
    token.slice(-5) : token]. *)
Definition maskToken (token : string) : string :=
  if Nat.ltb 5 (String.length token)
  then repeatChar "*" (String.length token - 5) +:+ sliceLast 5 token
  else token.

(** [s.replace(/\/+$/, '')]: [s] without the slashes it ends with. *)
Fixpoint stripTrailingSlashes (s : string) : string :=
  match s with
  | EmptyString => EmptyString
  | String c rest =>
      match stripTrailingSlashes rest with
      | EmptyString => if Ascii.eqb c "/" then EmptyString else String c EmptyString
      | kept => String c kept
      end
  end.

Fixpoint lastChar (s : string) : option ascii :=
  match s with
  | EmptyString => None
  | String c EmptyString => Some c
  | String _ rest => lastChar rest
  end.

(** [new OutlineAPI(outlineUrl, apiToken)] *)
Definition newOutlineAPI (outlineUrl apiToken : string) : OutlineAPI :=
  mkOutlineAPI (stripTrailingSlashes outlineUrl) apiToken.

(** [/^https?:\/\//.test(s)] *)
Definition hasScheme (s : string) : bool :=
  String.prefix "http://" s || String.prefix "https://" s.

(** What [saveSettings] reads of the token input: its value, whether it is
    read-only (the token is shown masked), and [dataset.fullToken]. *)
Record TokenField := mkTokenField {
  field_value : string;
  field_readOnly : bool;
  field_fullToken : option string
}.

(** What [saveSettings] does: an alert, or the call
    [saveToStorage({ outlineUrl, apiToken }, true)]. *)
Inductive Saving :=
  | Refused (alert : string)
  | Stored (outlineUrl apiToken : string).

Definition saveSettings (outlineUrlValue : string) (field : TokenField) : Saving :=
  let outlineUrl := trim outlineUrlValue in
  let apiToken :=
    if field_readOnly field then field_fullToken field
    else Some (trim (field_value field)) in
  if negb (truthy (Some outlineUrl)) || negb (truthy apiToken) then
    Refused "Both the Outline API Base URL and API token are required."
  else if negb (hasScheme outlineUrl) then
    Refused "Please enter a valid URL (must start with http:// or https://)."
  else Stored (stripTrailingSlashes outlineUrl) (default "" apiToken).

(** ** storageManager.js

    The module keeps [cache] and [outlineApiInstance]; the two areas are
    [chrome.storage.sync] and [chrome.storage.local], which hold strings
    here. What the callback finds in [chrome.runtime.lastError] is an
    argument of each call that reaches the storage; a call that failed has
    written nothing. A result object is the map of its properties that are
    not [undefined]. *)

Record Storage := mkStorage {
  syncArea : gmap string string;
  localArea : gmap string string;
  cache : gmap string (option string);
  outlineApiInstance : option OutlineAPI
}.

(** The argument of [get]: one key or an array of keys. *)
Inductive Keys :=
  | OneKey (key : string)
  | ManyKeys (keys : list string).

Definition areaOf (useSync : bool) (st : Storage) : gmap string string :=
  if useSync then syncArea st else localArea st.

(** What [storage.get] calls back with: the entries of the area under the
    keys asked for. *)
Definition pick (keys : list string) (area : gmap string string) : gmap string string :=
  filter (fun kv => kv.1 ∈ keys) area.

Module storageManager.

Definition get (keys : Keys) (useSync : bool) (lastError : option JsError) (st : Storage)
    : Storage * Completion (gmap string string) :=
  match keys with
  | OneKey key =>
      match cache st !! key with
      | Some cached =>
          (st, Returns (match cached with Some v => {[key := v]} | None => ∅ end))
      | None =>
          match lastError with
          | Some e => (st, Throws e)
          | None =>
              let area := areaOf useSync st in
              (mkStorage (syncArea st) (localArea st)
                 (<[key := area !! key]> (cache st)) (outlineApiInstance st),
               Returns (pick [key] area))
          end
      end
  | ManyKeys keys =>
      match lastError with
      | Some e => (st, Throws e)
      | None =>
          let area := areaOf useSync st in
          (mkStorage (syncArea st) (localArea st)
             (fold_left (fun c k => <[k := area !! k]> c) keys (cache st))
             (outlineApiInstance st),
           Returns (pick keys area))
      end
  end.

Definition set (items : gmap string string) (useSync : bool) (lastError : option JsError)
    (st : Storage) : Storage * Completion unit :=
  match lastError with
  | Some e => (st, Throws e)
  | None =>
      (mkStorage (if useSync then items ∪ syncArea st else syncArea st)
         (if useSync then localArea st else items ∪ localArea st)
         ((Some <$> items) ∪ cache st) (outlineApiInstance st),
       Returns tt)
  end.

(** utils.js, [getLocalStorage]: it reads the local area, not the cache. *)
Definition getLocalStorage (key : string) (lastError : option JsError) (st : Storage)
    : Completion (gmap string string) :=
  match lastError with
  | Some e => Throws e
  | None => Returns (pick [key] (localArea st))
  end.

(** [{ ...syncSettings, ...localSettings }]; the [catch] block throws the
    error again. *)
Definition getSettings (syncError localError : option JsError) (st : Storage)
    : Storage * Completion (gmap string string) :=
  match get (ManyKeys ["outlineUrl"; "apiToken"]) true syncError st with
  | (st1, Returns syncSettings) =>
      match getLocalStorage "collectionId" localError st1 with
      | Returns localSettings => (st1, Returns (localSettings ∪ syncSettings))
      | Throws e => (st1, Throws e)
      | OutOfFuel => (st1, OutOfFuel)
      end
  | (st1, Throws e) => (st1, Throws e)
  | (st1, OutOfFuel) => (st1, OutOfFuel)
  end.

Definition getOutlineAPI (syncError localError : option JsError) (st : Storage)
    : Storage * Completion OutlineAPI :=
  match outlineApiInstance st with
  | Some api => (st, Returns api)
  | None =>
      match getSettings syncError localError st with
      | (st1, Returns settings) =>
          if negb (truthy (settings !! "outlineUrl")) || negb (truthy (settings !! "apiToken"))
          then (st1, Throws (Error "Outline URL or API token is not set. Please configure them in the options page."))
          else
            let api := newOutlineAPI (default "" (settings !! "outlineUrl"))
                         (default "" (settings !! "apiToken")) in
            (mkStorage (syncArea st1) (localArea st1) (cache st1) (Some api), Returns api)
      | (st1, Throws e) => (st1, Throws e)
      | (st1, OutOfFuel) => (st1, OutOfFuel)
      end
  end.

End storageManager.

(** ** notificationManager.js *)

(** The callback of [chrome.notifications.create], called with the id the
    browser gave the notification: [if (docUrl) notificationUrlMap[id] =
    docUrl]. *)
Definition createNotification (notificationId : string) (docUrl : option string)
    (notificationUrlMap : gmap string string) : gmap string string :=
  if truthy docUrl then <[notificationId := default "" docUrl]> notificationUrlMap
  else notificationUrlMap.

(** The listener of [chrome.notifications.onClicked]: the map afterwards,
    and the URL of the tab it opens, if it opens one (it then also clears
    the notification). *)
Definition onNotificationClicked (notificationId : string)
    (notificationUrlMap : gmap string string) : gmap string string * option string :=
  if truthy (notificationUrlMap !! notificationId)
  then (delete notificationId notificationUrlMap, notificationUrlMap !! notificationId)
  else (notificationUrlMap, None).

(** A storage with settings saved and nothing read yet. *)
Definition configuredStorage : Storage :=
  mkStorage {["outlineUrl" := "https://wiki.example/"; "apiToken" := "token"]} ∅ ∅ None.

(** * Properties *)

(** ** The embedding on small inputs *)

Example parseInt10_seconds : parseInt10 "2" = Finite 2.
Proof. reflexivity. Qed.

Example parseInt10_prefix : parseInt10 "  120 seconds" = Finite 120.
Proof. reflexivity. Qed.

Example parseInt10_date : parseInt10 "Wed, 21 Oct 2026 07:28:00 GMT" = NaN.
Proof. reflexivity. Qed.

Example trim_blank : trim "  a b  " = "a b" /\ given "   " = false /\ given "P" = true.
Proof. repeat split; reflexivity. Qed.

(** The no-break space U+00A0 is white space for [trim] and [parseInt]. *)
Example trim_no_break_space :
  trim (String "160" (String "a" (String "160" ""))) = "a"
  /\ given (String "160" " ") = false
  /\ parseInt10 (String "160" "7") = Finite 7.
Proof. split; [|split]; reflexivity. Qed.

Example rateLimitDelay_hint : rateLimitDelay (limited (Some "2")) 500 1 = Finite 2000.
Proof. reflexivity. Qed.

Example rateLimitDelay_no_hint : rateLimitDelay (limited None) 500 2 = Finite 2000.
Proof. reflexivity. Qed.

Example retryFetch_first_try :
  retryFetch (fun _ => Responds serverError) 3 500 = ([EvFetch 0], Resolved serverError).
Proof. reflexivity. Qed.

Example parseApiError_json :
  parseApiError sampleStringify unauthorized "Moving document failed"
  = "Error (Status: 401) - <json>".
Proof. reflexivity. Qed.

Example flattenApiDocs_assigns_parent :
  flattenApiDocs [mkDoc "1" "one" None (Some [mkDoc "2" "two" None None;
                                              mkDoc "3" "three" (Some "9") None])] None
  = [mkFlatDoc "1" "one" None; mkFlatDoc "2" "two" (Some "1");
     mkFlatDoc "3" "three" (Some "9")].
Proof. reflexivity. Qed.

(** The scenario of the specification: documents 1, 2 and 3, the last two
    naming 1 as their parent. *)
Example buildTree_scenario :
  exists b,
    buildTree [mkFlatDoc "1" "one" None; mkFlatDoc "2" "two" (Some "1");
               mkFlatDoc "3" "three" (Some "1")] = Returns b
    /\ roots b = [0]
    /\ readForest b
       = Some [mkDoc "1" "one" None
                 (Some [mkDoc "2" "two" (Some "1") (Some []);
                        mkDoc "3" "three" (Some "1") (Some [])])].
Proof. eexists. split; [reflexivity|]. split; reflexivity. Qed.

(** Two documents that name each other have no root, and the walk from
    either does not end. *)
Example buildTree_cycle :
  exists b,
    buildTree [mkFlatDoc "1" "one" (Some "2"); mkFlatDoc "2" "two" (Some "1")] = Returns b
    /\ roots b = [] /\ readDoc 5 (heap b) 0 = None.
Proof. eexists. split; [reflexivity|]. split; reflexivity. Qed.

(** A document with the id [__proto__] becomes the prototype of the
    dictionary: a document that names it as parent is filed under it, and
    a document that names one of its properties as parent, here [title],
    makes [buildTree] throw. *)
Example buildTree_prototype :
  (exists b,
     buildTree [mkFlatDoc "__proto__" "p" None; mkFlatDoc "k" "kid" (Some "__proto__")]
       = Returns b
     /\ roots b = [0]
     /\ readForest b
        = Some [mkDoc "__proto__" "p" None
                  (Some [mkDoc "k" "kid" (Some "__proto__") (Some [])])])
  /\ buildTree [mkFlatDoc "__proto__" "p" None; mkFlatDoc "k" "kid" (Some "title")]
     = Throws noChildrenError.
Proof. split; [eexists; split; [reflexivity|]; split; reflexivity|reflexivity]. Qed.

(** ** The retry loop *)

Lemma retryLoop_go_on fetch maxRetries backoff attempt rest :
  retries maxRetries attempt (fetch attempt) = true ->
  retryLoop fetch maxRetries backoff (attempt :: rest) =
    (EvFetch attempt :: EvSleep (delayAfter fetch backoff attempt)
       :: fst (retryLoop fetch maxRetries backoff rest),
     snd (retryLoop fetch maxRetries backoff rest)).
Proof.
  unfold retries, delayAfter. simpl.
  destruct (fetch attempt) as [r|e]; intros Hgo.
  - rewrite Hgo. now destruct (retryLoop fetch maxRetries backoff rest).
  - apply negb_true_iff in Hgo. rewrite Hgo.
    now destruct (retryLoop fetch maxRetries backoff rest).
Qed.

Lemma retryLoop_skip fetch maxRetries backoff pre rest :
  Forall (fun j => retries maxRetries j (fetch j) = true) pre ->
  retryLoop fetch maxRetries backoff (pre ++ rest) =
    (goingOn fetch backoff pre ++ fst (retryLoop fetch maxRetries backoff rest),
     snd (retryLoop fetch maxRetries backoff rest)).
Proof.
  induction 1 as [|j pre Hj _ IH].
  - simpl. now destruct (retryLoop fetch maxRetries backoff rest).
  - change ((j :: pre) ++ rest) with (j :: (pre ++ rest)).
    rewrite retryLoop_go_on by exact Hj. rewrite IH. reflexivity.
Qed.

Lemma goingOn_length fetch backoff l :
  length (goingOn fetch backoff l) = 2 * length l.
Proof. induction l as [|j l IH]; simpl; [reflexivity | rewrite IH; lia]. Qed.

Lemma attemptsMade_app evs1 evs2 :
  attemptsMade (evs1 ++ evs2) = attemptsMade evs1 + attemptsMade evs2.
Proof. unfold attemptsMade. now rewrite List.filter_app, length_app. Qed.

Lemma attemptsMade_goingOn fetch backoff l :
  attemptsMade (goingOn fetch backoff l) = length l.
Proof.
  induction l as [|j l IH]; [reflexivity|].
  change (goingOn fetch backoff (j :: l))
    with ([EvFetch j; EvSleep (delayAfter fetch backoff j)] ++ goingOn fetch backoff l).
  rewrite attemptsMade_app, IH. reflexivity.
Qed.

Lemma seq_Forall_below (P : nat -> Prop) k :
  (forall j, j < k -> P j) -> Forall P (seq 0 k).
Proof.
  intros H. apply List.Forall_forall. intros j Hj.
  apply in_seq in Hj. apply H. lia.
Qed.

(** The run up to iteration [k], when every earlier iteration goes on. *)
Lemma retryFetch_reaches fetch maxRetries backoff k :
  k <= S maxRetries ->
  (forall j, j < k -> retries maxRetries j (fetch j) = true) ->
  retryFetch fetch maxRetries backoff =
    (goingOn fetch backoff (seq 0 k)
       ++ fst (retryLoop fetch maxRetries backoff (seq k (S maxRetries - k))),
     snd (retryLoop fetch maxRetries backoff (seq k (S maxRetries - k)))).
Proof.
  intros Hk Hgo. unfold retryFetch.
  replace (S maxRetries) with (k + (S maxRetries - k)) at 1 by lia.
  rewrite seq_app. simpl (0 + k).
  apply retryLoop_skip, seq_Forall_below, Hgo.
Qed.

Lemma lookup_after_goingOn fetch backoff k (evs : list Event) i :
  (goingOn fetch backoff (seq 0 k) ++ evs) !! (2 * k + i) = evs !! i.
Proof.
  rewrite lookup_app_r; rewrite goingOn_length, length_seq; [|lia].
  f_equal. lia.
Qed.

(** The two events of iteration [k], when it is reached and goes on. *)
Lemma retryFetch_round fetch maxRetries backoff k :
  k <= maxRetries ->
  (forall j, j <= k -> retries maxRetries j (fetch j) = true) ->
  fst (retryFetch fetch maxRetries backoff) !! (2 * k) = Some (EvFetch k)
  /\ fst (retryFetch fetch maxRetries backoff) !! (2 * k + 1)
     = Some (EvSleep (delayAfter fetch backoff k)).
Proof.
  intros Hk Hgo.
  rewrite (retryFetch_reaches fetch maxRetries backoff k) by (try lia; intros; apply Hgo; lia).
  replace (S maxRetries - k) with (S (maxRetries - k)) by lia.
  cbn [seq]. rewrite retryLoop_go_on by (apply Hgo; lia). cbn [fst].
  split.
  - replace (2 * k) with (2 * k + 0) by lia. now rewrite lookup_after_goingOn.
  - now rewrite lookup_after_goingOn.
Qed.

(** C5: with [maxRetries = 3], two failed attempts and then a response that
    is not a 429 give that response, after sleeping [backoff * 2^0] and
    [backoff * 2^1]; in general, when attempt [k] is reached, fails and is
    not the last, [backoff * 2^k] is slept right after it; and when the
    attempt numbered [maxRetries] is reached and fails, its error is what
    [retryFetch] rejects with, after [maxRetries + 1] attempts. *)
Theorem retryFetch_backoff_then_last_error fetch maxRetries backoff :
  (maxRetries = 3 ->
   forall e0 e1 r,
     fetch 0 = Fails e0 -> fetch 1 = Fails e1 ->
     fetch 2 = Responds r -> status r <> 429%Z ->
     retryFetch fetch maxRetries backoff =
       ([EvFetch 0; EvSleep (Finite (backoff * 2 ^ 0));
         EvFetch 1; EvSleep (Finite (backoff * 2 ^ 1));
         EvFetch 2], Resolved r))
  /\ (forall k e,
        k < maxRetries ->
        (forall j, j < k -> retries maxRetries j (fetch j) = true) ->
        fetch k = Fails e ->
        fst (retryFetch fetch maxRetries backoff) !! (2 * k) = Some (EvFetch k)
        /\ fst (retryFetch fetch maxRetries backoff) !! (2 * k + 1)
           = Some (EvSleep (Finite (backoff * 2 ^ Z.of_nat k))))
  /\ (forall e,
        (forall j, j < maxRetries -> retries maxRetries j (fetch j) = true) ->
        fetch maxRetries = Fails e ->
        snd (retryFetch fetch maxRetries backoff) = Rejected e
        /\ attemptsMade (fst (retryFetch fetch maxRetries backoff)) = S maxRetries).
Proof.
  split; [|split].
  - intros -> e0 e1 r H0 H1 H2 Hr.
    unfold retryFetch. simpl. rewrite H0, H1, H2. simpl.
    apply Z.eqb_neq in Hr. rewrite Hr. reflexivity.
  - intros k e Hk Hgo Hfail.
    destruct (retryFetch_round fetch maxRetries backoff k) as [Hf Hs]; [lia| |].
    + intros j Hj. destruct (Nat.eq_dec j k) as [->|Hne]; [|apply Hgo; lia].
      rewrite Hfail. simpl. apply negb_true_iff, Nat.eqb_neq. lia.
    + split; [exact Hf|]. rewrite Hs. unfold delayAfter. rewrite Hfail. reflexivity.
  - intros e Hgo Hfail.
    rewrite (retryFetch_reaches fetch maxRetries backoff maxRetries) by (try lia; assumption).
    replace (S maxRetries - maxRetries) with 1 by lia.
    simpl. rewrite Hfail, Nat.eqb_refl. simpl. split; [reflexivity|].
    rewrite attemptsMade_app, attemptsMade_goingOn, length_seq. unfold attemptsMade. simpl. lia.
Qed.

Lemma retryFetch_backoff_then_last_error_witness :
  retryFetch timesOutTwice 3 500 =
    ([EvFetch 0; EvSleep (Finite 500); EvFetch 1; EvSleep (Finite 1000); EvFetch 2],
     Resolved (okResponse JNull))
  /\ fst (retryFetch alwaysTimesOut 3 500) !! 5 = Some (EvSleep (Finite 2000))
  /\ snd (retryFetch alwaysTimesOut 3 500) = Rejected (Error "Request timed out").
Proof.
  split; [|split].
  - apply (proj1 (retryFetch_backoff_then_last_error timesOutTwice 3 500) eq_refl
             (Error "Request timed out") (Error "Request timed out") (okResponse JNull));
      [reflexivity | reflexivity | reflexivity | discriminate].
  - apply (proj1 (proj2 (retryFetch_backoff_then_last_error alwaysTimesOut 3 500)) 2
             (Error "Request timed out")); [lia | | reflexivity].
    intros j Hj. do 2 (destruct j as [|j]; [reflexivity|]). lia.
  - apply (proj2 (proj2 (retryFetch_backoff_then_last_error alwaysTimesOut 3 500))
             (Error "Request timed out")); [| reflexivity].
    intros j Hj. do 3 (destruct j as [|j]; [reflexivity|]). lia.
Defined.

(** C9: when every attempt within the budget returns 429, [retryFetch] makes
    [maxRetries + 1] attempts, sleeps the computed delay after each, and
    resolves with [undefined]: no response is returned and nothing is
    thrown. *)
Theorem retryFetch_only_rate_limited fetch maxRetries backoff :
  (forall j, j <= maxRetries -> exists r, fetch j = Responds r /\ status r = 429%Z) ->
  retryFetch fetch maxRetries backoff =
    (goingOn fetch backoff (seq 0 (S maxRetries)), ResolvedUndefined)
  /\ attemptsMade (fst (retryFetch fetch maxRetries backoff)) = S maxRetries
  /\ forall j r, j <= maxRetries -> fetch j = Responds r ->
       fst (retryFetch fetch maxRetries backoff) !! (2 * j + 1)
       = Some (EvSleep (rateLimitDelay r backoff j)).
Proof.
  intros Hall.
  assert (Hgo : forall j, j < S maxRetries -> retries maxRetries j (fetch j) = true).
  { intros j Hj. destruct (Hall j) as (r & -> & Hr); [lia|].
    simpl. now rewrite Hr. }
  assert (Hrun : retryFetch fetch maxRetries backoff =
                 (goingOn fetch backoff (seq 0 (S maxRetries)), ResolvedUndefined)).
  { rewrite (retryFetch_reaches fetch maxRetries backoff (S maxRetries)) by (try lia; exact Hgo).
    rewrite Nat.sub_diag. simpl. now rewrite app_nil_r. }
  split; [exact Hrun|]. split.
  - rewrite Hrun. cbn [fst]. now rewrite attemptsMade_goingOn, length_seq.
  - intros j r Hj Hr.
    destruct (retryFetch_round fetch maxRetries backoff j) as [_ Hs];
      [lia | intros; apply Hgo; lia |].
    rewrite Hs. unfold delayAfter. now rewrite Hr.
Qed.

Lemma retryFetch_only_rate_limited_witness :
  retryFetch (alwaysLimited (Some "2")) 3 500 =
    ([EvFetch 0; EvSleep (Finite 2000); EvFetch 1; EvSleep (Finite 2000);
      EvFetch 2; EvSleep (Finite 2000); EvFetch 3; EvSleep (Finite 2000)],
     ResolvedUndefined).
Proof.
  apply (retryFetch_only_rate_limited (alwaysLimited (Some "2")) 3 500).
  intros j _. exists (limited (Some "2")). split; reflexivity.
Defined.

Lemma retryLoop_attempts fetch maxRetries backoff l :
  attemptsMade (fst (retryLoop fetch maxRetries backoff l)) <= length l.
Proof.
  induction l as [|j l IH]; simpl; [unfold attemptsMade; simpl; lia|].
  destruct (retryLoop fetch maxRetries backoff l) as [evs res]. simpl in IH.
  destruct (fetch j) as [r|e].
  - destruct (Z.eqb (status r) 429); unfold attemptsMade in *; simpl; lia.
  - destruct (Nat.eqb j maxRetries); unfold attemptsMade in *; simpl; lia.
Qed.

(** C1, as the code has it: when attempt [k] is reached and returns 429, the
    delay slept right after it is the [Retry-After] value times 1000 when
    that header reads as a number, and [backoff * 2^k] when the header is
    missing or empty. The attempt is one of the [maxRetries + 1] the loop
    makes at most, whatever their outcomes, and when it is the one numbered
    [maxRetries] no further attempt follows its delay. *)
Theorem retryFetch_rate_limit_delay fetch maxRetries backoff k r :
  k <= maxRetries ->
  (forall j, j < k -> retries maxRetries j (fetch j) = true) ->
  fetch k = Responds r -> status r = 429%Z ->
  fst (retryFetch fetch maxRetries backoff) !! (2 * k) = Some (EvFetch k)
  /\ fst (retryFetch fetch maxRetries backoff) !! (2 * k + 1)
     = Some (EvSleep (rateLimitDelay r backoff k))
  /\ (forall h n, retryAfter r = Some h -> h <> "" -> parseInt10 h = Finite n ->
       rateLimitDelay r backoff k = Finite (n * 1000))
  /\ (truthy (retryAfter r) = false ->
       rateLimitDelay r backoff k = Finite (backoff * 2 ^ Z.of_nat k))
  /\ attemptsMade (fst (retryFetch fetch maxRetries backoff)) <= S maxRetries
  /\ (k = maxRetries ->
       length (fst (retryFetch fetch maxRetries backoff)) = 2 * k + 2).
Proof.
  intros Hk Hgo Hr H429.
  assert (Hgo' : forall j, j <= k -> retries maxRetries j (fetch j) = true).
  { intros j Hj. destruct (Nat.eq_dec j k) as [->|Hne]; [|apply Hgo; lia].
    rewrite Hr. simpl. now rewrite H429. }
  destruct (retryFetch_round fetch maxRetries backoff k Hk Hgo') as [Hf Hs].
  split; [exact Hf|]. split.
  { rewrite Hs. unfold delayAfter. now rewrite Hr. }
  split.
  { intros h n Hh Hne Hn. unfold rateLimitDelay. rewrite Hh. simpl.
    apply String.eqb_neq in Hne. rewrite Hne. simpl. now rewrite Hn. }
  split.
  { intros Hfalsy. unfold rateLimitDelay. now rewrite Hfalsy. }
  split.
  { unfold retryFetch.
    etransitivity; [apply retryLoop_attempts|]. now rewrite length_seq. }
  intros ->.
  rewrite (retryFetch_reaches fetch maxRetries backoff (S maxRetries))
    by (try lia; intros; apply Hgo'; lia).
  rewrite Nat.sub_diag. simpl seq at 2. cbn [retryLoop fst snd].
  rewrite app_nil_r, goingOn_length, length_seq. lia.
Qed.

Lemma retryFetch_rate_limit_delay_witness :
  fst (retryFetch limitedFourTimes 3 500) !! 7 = Some (EvSleep (Finite 2000))
  /\ rateLimitDelay (limited (Some "2")) 500 3 = Finite (2 * 1000)
  /\ attemptsMade (fst (retryFetch limitedFourTimes 3 500)) <= 4
  /\ length (fst (retryFetch limitedFourTimes 3 500)) = 8.
Proof.
  assert (Hgo : forall j, j < 3 -> retries 3 j (limitedFourTimes j) = true).
  { intros j Hj. do 3 (destruct j as [|j]; [reflexivity|]). lia. }
  destruct (retryFetch_rate_limit_delay limitedFourTimes 3 500 3 (limited (Some "2"))
              (le_n 3) Hgo eq_refl eq_refl)
    as (_ & Hsleep & Hhint & _ & Hmax & Hend).
  split; [exact Hsleep|]. split; [|split; [exact Hmax|exact (Hend eq_refl)]].
  apply (Hhint "2" 2%Z); [reflexivity|discriminate|reflexivity].
Defined.

(** C1, as the specification words it, fails: four 429 responses use up the
    budget of [maxRetries = 3], and the 200 response that would come fifth
    is never asked for. *)
Lemma retryFetch_rate_limit_counts :
  retryFetch limitedFourTimes 3 500 =
    ([EvFetch 0; EvSleep (Finite 2000); EvFetch 1; EvSleep (Finite 2000);
      EvFetch 2; EvSleep (Finite 2000); EvFetch 3; EvSleep (Finite 2000)],
     ResolvedUndefined)
  /\ limitedFourTimes 4 = Responds (okResponse JNull)
  /\ ~ rateLimitOutsideBudget.
Proof.
  split; [reflexivity|]. split; [reflexivity|].
  intros Hfree.
  specialize (Hfree limitedFourTimes 3 500%Z 4 (okResponse JNull)).
  assert (Hbad : snd (retryFetch limitedFourTimes 3 500) = Resolved (okResponse JNull)).
  { apply Hfree; [|reflexivity|discriminate].
    intros j Hj. exists (limited (Some "2")).
    do 4 (destruct j as [|j]; [split; reflexivity|]). lia. }
  discriminate Hbad.
Qed.

(** ** The API client *)

Section ClientProperties.

Variable JSON_stringify : Json -> string.
Variable net : Network.
Variable api : OutlineAPI.

Lemma awaitRetryFetch_resolved req log r :
  snd (retryFetch (net (length log) req) MAX_RETRIES INITIAL_BACKOFF) = Resolved r ->
  awaitRetryFetch net req log = (log ++ [req], Returns (Some r)).
Proof. intros H. unfold awaitRetryFetch. now rewrite H. Qed.

(** The common shape of the operations that check [response.ok]. *)
Lemma checked_operation {A} req dflt (k : Value -> Api A) log r :
  snd (retryFetch (net (length log) req) MAX_RETRIES INITIAL_BACKOFF) = Resolved r ->
  (let! response := awaitRetryFetch net req in
   let! response := defined response in
   throwUnlessOk JSON_stringify response dflt;;;
   let! data := awaitJson response in
   k data) log =
  if ok r then
    match json r with
    | Some d => k (Val d) (log ++ [req])
    | None => (log ++ [req], Throws (SyntaxError "Unexpected token in JSON"))
    end
  else (log ++ [req], Throws (OutlineApiError (parseApiError JSON_stringify r dflt) (status r))).
Proof.
  intros H. unfold bind at 1. rewrite (awaitRetryFetch_resolved _ _ _ H).
  unfold bind, defined, ret, throwUnlessOk, awaitJson, throw.
  destruct (ok r); simpl; [|reflexivity].
  now destruct (json r).
Qed.


(** Without a response there is no status to carry: the operation throws
    what [retryFetch] rejected with, and a [TypeError] when [retryFetch]
    resolved with [undefined]. *)
Lemma runMutation_without_response m log :
  match snd (retryFetch (net (length log) (mutationRequest api m)) MAX_RETRIES INITIAL_BACKOFF) with
  | Resolved _ => True
  | ResolvedUndefined =>
      snd (runMutation JSON_stringify net api m log)
      = Throws (TypeError "Cannot read properties of undefined (reading 'ok')")
  | Rejected e => snd (runMutation JSON_stringify net api m log) = Throws e
  end.
Proof.
  destruct m; simpl;
    unfold createCollection, createDocument, moveDocument, bind, awaitRetryFetch;
    match goal with |- context [retryFetch ?f ?a ?b] => destruct (snd (retryFetch f a b)) end;
    simpl; auto.
Qed.


(** C10: when the [retryFetch] call of [getDocument] resolves with a
    response whose [ok] flag is false, whatever its status, [getDocument]
    sends its one request and returns [null] without throwing; when the flag
    is true and the body parses, it returns the [data] of the parsed body. *)
Theorem getDocument_null_unless_ok documentId log r :
  snd (retryFetch (net (length log) (post api "documents.info" (DocumentsInfo documentId)))
         MAX_RETRIES INITIAL_BACKOFF) = Resolved r ->
  (ok r = false ->
   getDocument net api documentId log =
     (log ++ [post api "documents.info" (DocumentsInfo documentId)], Returns null))
  /\ (ok r = true -> forall d, json r = Some d ->
      getDocument net api documentId log =
        (log ++ [post api "documents.info" (DocumentsInfo documentId)],
         getProp (Val d) "data")).
Proof.
  intros H.
  assert (Hrun : getDocument net api documentId log =
                 if ok r then
                   match json r with
                   | Some d => (log ++ [post api "documents.info" (DocumentsInfo documentId)],
                                getProp (Val d) "data")
                   | None => (log ++ [post api "documents.info" (DocumentsInfo documentId)],
                              Throws (SyntaxError "Unexpected token in JSON"))
                   end
                 else (log ++ [post api "documents.info" (DocumentsInfo documentId)],
                       Returns null)).
  { unfold getDocument, bind at 1. rewrite (awaitRetryFetch_resolved _ _ _ H).
    unfold bind, defined, ret, awaitJson, liftC, throw.
    destruct (ok r); simpl; [destruct (json r)|]; reflexivity. }
  rewrite Hrun. split.
  - intros Hok. rewrite Hok. reflexivity.
  - intros Hok d Hd. rewrite Hok, Hd. reflexivity.
Qed.

Lemma listCollectionsLoop_step fuel acc i logc v :
  answers net (length logc) (listRequest api i) v ->
  listCollectionsLoop JSON_stringify net api (S fuel) acc (1 + limit * i) logc =
    if lastPage v then (logc ++ [listRequest api i], Returns (acc ++ pageItems v))
    else listCollectionsLoop JSON_stringify net api fuel (acc ++ pageItems v)
           (1 + limit * S i) (logc ++ [listRequest api i]).
Proof.
  intros (r & d & Hres & Hok & Hjson & Hdata).
  cbn [listCollectionsLoop].
  rewrite (checked_operation _ _ _ _ _ Hres). rewrite Hok, Hjson.
  unfold bind, liftC. rewrite Hdata.
  replace (1 + limit * i + limit) with (1 + limit * S i) by lia.
  destruct v as [|[| | | |items|]]; simpl; try (now rewrite app_nil_r).
  unfold listRequest. destruct (Nat.ltb (length items) limit); reflexivity.
Qed.

Lemma listCollectionsLoop_run (pages : nat -> Value) k :
  forall fuel acc a logc,
    k < fuel ->
    (forall i, i <= k -> answers net (length logc + i) (listRequest api (a + i)) (pages (a + i))) ->
    (forall i, i < k -> lastPage (pages (a + i)) = false) ->
    lastPage (pages (a + k)) = true ->
    listCollectionsLoop JSON_stringify net api fuel acc (1 + limit * a) logc =
      (logc ++ List.map (listRequest api) (seq a (S k)),
       Returns (acc ++ flat_map (fun i => pageItems (pages i)) (seq a (S k)))).
Proof.
  induction k as [|k IH]; intros fuel acc a logc Hfuel Hans Hfull Hlast;
    (destruct fuel as [|fuel]; [lia|]).
  - rewrite (listCollectionsLoop_step fuel acc a logc (pages a)).
    + rewrite Nat.add_0_r in Hlast. rewrite Hlast. simpl. now rewrite app_nil_r.
    + specialize (Hans 0 (Nat.le_0_l _)). now rewrite !Nat.add_0_r in Hans.
  - rewrite (listCollectionsLoop_step fuel acc a logc (pages a)).
    + specialize (Hfull 0 (Nat.lt_0_succ _)) as Hfirst.
      rewrite Nat.add_0_r in Hfirst. rewrite Hfirst.
      rewrite (IH fuel (acc ++ pageItems (pages a)) (S a)).
      * cbn [seq List.map flat_map]. now rewrite <- !app_assoc.
      * lia.
      * intros i Hi. rewrite length_app. simpl.
        replace (length logc + 1 + i) with (length logc + S i) by lia.
        rewrite <- Nat.add_succ_r. apply Hans. lia.
      * intros i Hi. simpl. rewrite <- Nat.add_succ_r. apply Hfull. lia.
      * simpl. now rewrite <- Nat.add_succ_r.
    + specialize (Hans 0 (Nat.le_0_l _)). now rewrite !Nat.add_0_r in Hans.
Qed.

(** C4: when the pages before the [k]-th are arrays of at least [limit]
    collections and the [k]-th payload is a shorter array or not an array,
    [listCollections] ends (any number of rounds above [k] is enough): it
    has sent [k + 1] requests, for the offsets [1], [1 + limit], ...,
    [1 + limit * k] in this order, and returns the collections of the
    pages, concatenated in order. *)
Theorem listCollections_concatenates_pages (pages : nat -> Value) k log :
  (forall i, i <= k -> answers net (length log + i) (listRequest api i) (pages i)) ->
  (forall i, i < k -> lastPage (pages i) = false) ->
  lastPage (pages k) = true ->
  forall fuel, k < fuel ->
    listCollections JSON_stringify net api fuel log =
      (log ++ List.map (listRequest api) (seq 0 (S k)),
       Returns (flat_map (fun i => pageItems (pages i)) (seq 0 (S k)))).
Proof.
  intros Hans Hfull Hlast fuel Hfuel. unfold listCollections.
  change 1 with (1 + limit * 0) at 1.
  now rewrite (listCollectionsLoop_run pages k fuel [] 0 log).
Qed.

End ClientProperties.


Lemma getDocument_null_unless_ok_witness :
  getDocument (constantNet serverError) sampleApi "doc" []
  = ([post sampleApi "documents.info" (DocumentsInfo "doc")], Returns null)
  /\ getDocument (constantNet unauthorized) sampleApi "doc" []
     = ([post sampleApi "documents.info" (DocumentsInfo "doc")], Returns null).
Proof.
  split.
  - apply (proj1 (getDocument_null_unless_ok (constantNet serverError) sampleApi "doc" []
                    serverError eq_refl)).
    reflexivity.
  - apply (proj1 (getDocument_null_unless_ok (constantNet unauthorized) sampleApi "doc" []
                    unauthorized eq_refl)).
    reflexivity.
Defined.

Lemma listCollections_concatenates_pages_witness :
  listCollections sampleStringify twoPageNet sampleApi 2 []
  = ([listRequest sampleApi 0; listRequest sampleApi 1],
     Returns (repeat (JStr "c") limit ++ [JStr "last"])).
Proof.
  apply (listCollections_concatenates_pages sampleStringify twoPageNet sampleApi twoPages 1 []).
  - intros i Hi. destruct i as [|[|i]]; [| |lia];
      (eexists _, _; split; [reflexivity|]; split; [reflexivity|];
       split; [reflexivity|]; reflexivity).
  - intros i Hi. destruct i as [|i]; [reflexivity|lia].
  - reflexivity.
  - lia.
Defined.

(** ** Documents: induction through the nested [children] *)

Section DocInduction.

Variable P : Doc -> Prop.
Hypothesis leaf : forall i ttl parent, P (mkDoc i ttl parent None).
Hypothesis inner : forall i ttl parent kids,
  Forall P kids -> P (mkDoc i ttl parent (Some kids)).

Fixpoint Doc_nested_ind (doc : Doc) : P doc :=
  match doc with
  | mkDoc i ttl parent None => leaf i ttl parent
  | mkDoc i ttl parent (Some kids) =>
      inner i ttl parent kids
        ((fix all (l : list Doc) : Forall P l :=
            match l with
            | [] => List.Forall_nil P
            | child :: rest => List.Forall_cons P child rest (Doc_nested_ind child) (all rest)
            end) kids)
  end.

End DocInduction.

(** ** Selection *)

Lemma filter_flat_map {A B} (f : B -> bool) (g : A -> list B) l :
  List.filter f (flat_map g l) = flat_map (fun x => List.filter f (g x)) l.
Proof.
  induction l as [|x l IH]; simpl; [reflexivity|].
  now rewrite List.filter_app, IH.
Qed.

Lemma map_flat_map {A B C} (f : B -> C) (g : A -> list B) l :
  List.map f (flat_map g l) = flat_map (fun x => List.map f (g x)) l.
Proof.
  induction l as [|x l IH]; simpl; [reflexivity|].
  now rewrite List.map_app, IH.
Qed.

Lemma flat_map_Forall_eq {A B} (P : A -> Prop) (f g : A -> list B) l :
  Forall P l -> (forall x, P x -> f x = g x) -> flat_map f l = flat_map g l.
Proof.
  intros Hall Heq. induction Hall as [|x l Hx _ IH]; simpl; [reflexivity|].
  now rewrite (Heq x Hx), IH.
Qed.

Lemma flat_map_Forall_nil {A B} (P : A -> Prop) (f : A -> list B) l :
  Forall P l -> (forall x, P x -> f x = []) -> flat_map f l = [].
Proof.
  intros Hall Hnil. induction Hall as [|x l Hx _ IH]; simpl; [reflexivity|].
  now rewrite (Hnil x Hx), IH.
Qed.

(** Below a selected node nothing is top-level. *)
Lemma below_selected_none selectedIds node :
  forall ancestors,
    forallb (fun a => negb (includes selectedIds a)) ancestors = false ->
    List.filter (topLevel selectedIds) (preorder ancestors node) = [].
Proof.
  induction node as [i ttl parent|i ttl parent kids IH] using Doc_nested_ind;
    intros ancestors Hanc; simpl; unfold topLevel at 1; simpl; rewrite Hanc, andb_false_r.
  - reflexivity.
  - rewrite filter_flat_map.
    apply (flat_map_Forall_nil _ _ _ IH).
    intros child Hchild. apply Hchild. simpl. now rewrite Hanc, andb_false_r.
Qed.

Lemma filterTopLevelSelectedNode_spec selectedIds node :
  forall ancestors,
    forallb (fun a => negb (includes selectedIds a)) ancestors = true ->
    filterTopLevelSelectedNode selectedIds node =
      List.map snd (List.filter (topLevel selectedIds) (preorder ancestors node)).
Proof.
  induction node as [i ttl parent|i ttl parent kids IH] using Doc_nested_ind;
    intros ancestors Hanc; simpl; unfold topLevel at 1; simpl; rewrite Hanc, andb_true_r.
  - now destruct (includes selectedIds i).
  - rewrite filter_flat_map. destruct (includes selectedIds i) eqn:Hsel; simpl.
    + rewrite (flat_map_Forall_nil (fun _ => True)); [reflexivity| |].
      * now apply List.Forall_forall.
      * intros child _. apply below_selected_none. simpl. now rewrite Hsel.
    + rewrite map_flat_map. apply (flat_map_Forall_eq _ _ _ _ IH).
      intros child Hchild. apply Hchild. simpl. now rewrite Hsel.
Qed.

(** C6: [filterTopLevelSelected] returns, in preorder, the selected nodes
    that have no selected ancestor. On the tree [A -> [B, C]], [B -> [D]]:
    selecting [B] gives [[B]], also when [D] is selected with it, and
    selecting [D] alone gives [[D]]. *)
Theorem filterTopLevelSelected_top_level tree selectedIds :
  filterTopLevelSelected tree selectedIds = selectedWithoutSelectedAncestor tree selectedIds
  /\ filterTopLevelSelected [docA] ["B"] = [docB]
  /\ filterTopLevelSelected [docA] ["B"; "D"] = [docB]
  /\ filterTopLevelSelected [docA] ["D"] = [docD].
Proof.
  split; [|repeat split; reflexivity].
  unfold filterTopLevelSelected, selectedWithoutSelectedAncestor.
  rewrite filter_flat_map, map_flat_map.
  apply (flat_map_Forall_eq (fun _ => True)).
  - now apply List.Forall_forall.
  - intros node _. now apply filterTopLevelSelectedNode_spec.
Qed.

(** ** Relocation *)

Section RelocationProperties.

Variable JSON_stringify : Json -> string.
Variable net : Network.
Variable api : OutlineAPI.
Hypothesis succeed : movesSucceed net.

Lemma moveDocument_succeeds documentId destCollectionId destParentId log :
  exists v,
    moveDocument JSON_stringify net api documentId destCollectionId destParentId log =
      (log ++ [post api "documents.move" (movePayload documentId destCollectionId destParentId)],
       Returns v).
Proof.
  destruct (succeed (length log)
              (post api "documents.move" (movePayload documentId destCollectionId destParentId)))
    as (r & d & Hres & Hok & Hjson & Hd).
  unfold moveDocument. rewrite (checked_operation _ _ _ _ _ _ _ Hres), Hok, Hjson.
  unfold liftC. destruct d; try contradiction; simpl; eauto.
Qed.

Lemma moveDocumentRecursively_requests doc :
  forall destCollectionId destParentId log,
    moveDocumentRecursively JSON_stringify net api doc destCollectionId destParentId log =
      (log ++ moveRequests api doc destCollectionId destParentId, Returns tt).
Proof.
  induction doc as [i ttl parent|i ttl parent kids IH] using Doc_nested_ind;
    intros dest destParent log;
    destruct (moveDocument_succeeds i dest destParent log) as [v Hmove];
    cbn [moveDocumentRecursively moveRequests id children];
    unfold bind at 1; rewrite Hmove.
  - reflexivity.
  - replace (log ++ post api "documents.move" (movePayload i dest destParent)
                 :: flat_map (fun child => moveRequests api child dest i) kids)
      with ((log ++ [post api "documents.move" (movePayload i dest destParent)])
              ++ flat_map (fun child => moveRequests api child dest i) kids)
      by (now rewrite <- app_assoc).
    generalize (log ++ [post api "documents.move" (movePayload i dest destParent)]).
    clear Hmove log. intros log.
    revert log. induction IH as [|child rest Hchild _ IHrest]; intros log.
    + simpl. now rewrite app_nil_r.
    + unfold bind at 1. rewrite Hchild. rewrite IHrest.
      simpl. now rewrite app_assoc.
Qed.

(** C2: when the remote moves succeed, [moveDocumentRecursively] on [B]
    sends the move of [B] to collection [X] under parent [P] first, then,
    child by child in order, the requests of moving that child and its
    subtree under parent [B.id], and returns. For [B] with the one child
    [D], which has no children, these are two requests: [(B, X, P)], then
    [(D, X, B.id)]. *)
Theorem moveDocumentRecursively_reparents B X P log :
  moveDocumentRecursively JSON_stringify net api B X P log =
    (log ++ moveRequests api B X P, Returns tt)
  /\ (forall kids, children B = Some kids ->
      moveRequests api B X P =
        post api "documents.move" (movePayload (id B) X P)
        :: flat_map (fun child => moveRequests api child X (id B)) kids)
  /\ (forall D, children B = Some [D] -> children D = None \/ children D = Some [] ->
      moveRequests api B X P =
        [post api "documents.move" (movePayload (id B) X P);
         post api "documents.move" (movePayload (id D) X (id B))])
  /\ (given P = true -> movePayload (id B) X P = DocumentsMove (id B) X (Some P))
  /\ (forall D, given (id B) = true ->
      movePayload (id D) X (id B) = DocumentsMove (id D) X (Some (id B))).
Proof.
  split; [apply moveDocumentRecursively_requests|].
  split; [intros kids Hkids; destruct B; simpl in *; now rewrite Hkids|].
  split.
  { intros D HB HD. destruct B as [b tb pb kb], D as [d td pd kd]; simpl in *.
    rewrite HB. simpl. destruct HD as [->| ->]; reflexivity. }
  split; [intros HP|intros D HB]; unfold movePayload; [now rewrite HP|now rewrite HB].
Qed.

End RelocationProperties.

Lemma moveDocumentRecursively_reparents_witness :
  moveDocumentRecursively sampleStringify obligingNet sampleApi docB "X" "P" [] =
    ([post sampleApi "documents.move" (DocumentsMove "B" "X" (Some "P"));
      post sampleApi "documents.move" (DocumentsMove "D" "X" (Some "B"))],
     Returns tt).
Proof.
  assert (Hok : movesSucceed obligingNet).
  { intros n req. eexists _, _. split; [reflexivity|]. split; [reflexivity|].
    split; [reflexivity|discriminate]. }
  apply (proj1 (moveDocumentRecursively_reparents sampleStringify obligingNet sampleApi
                  Hok docB "X" "P" [])).
Defined.

(** ** buildTree *)

Lemma indexDocs_other docs : forall i map s,
  s ∉ List.map flat_id docs -> indexDocs i docs map !! s = map !! s.
Proof.
  induction docs as [|d docs IH]; intros i map s Hs; simpl; [reflexivity|].
  simpl in Hs. apply not_elem_of_cons in Hs as [Hne Hs].
  rewrite IH by exact Hs. now rewrite lookup_insert_ne.
Qed.

(** An address [map] holds is the address of a listed document with that
    id. *)
Lemma indexDocs_Some docs : forall i map s a,
  indexDocs i docs map !! s = Some a ->
  map !! s = Some a \/ exists d, docs !! (a - i) = Some d /\ i <= a /\ flat_id d = s.
Proof.
  induction docs as [|d docs IH]; intros i map s a Ha; simpl in Ha; [now left|].
  destruct (IH _ _ _ _ Ha) as [Hm|(d' & Hd' & Hle & Hid)].
  - destruct (decide (flat_id d = s)) as [<-|Hne].
    + rewrite lookup_insert_eq in Hm. injection Hm as <-.
      right. exists d. rewrite Nat.sub_diag. auto.
    + rewrite lookup_insert_ne in Hm by exact Hne. now left.
  - right. exists d'. replace (a - i) with (S (a - S i)) by lia. simpl. split; [exact Hd'|]. split; [lia|exact Hid].
Qed.

Lemma indexDocs_unique docs : forall i map k d,
  NoDup (List.map flat_id docs) -> docs !! k = Some d ->
  indexDocs i docs map !! flat_id d = Some (i + k).
Proof.
  induction docs as [|d0 docs IH]; intros i map k d Hnd Hk; [discriminate|].
  simpl in Hnd. apply NoDup_cons in Hnd as [Hfresh Hnd]. destruct k as [|k]; simpl in *.
  - injection Hk as ->. rewrite indexDocs_other by exact Hfresh.
    rewrite lookup_insert_eq. f_equal. lia.
  - rewrite (IH (S i) _ k d Hnd Hk). f_equal. lia.
Qed.

Lemma positionsWhere_app f docs1 : forall i docs2,
  positionsWhere f i (docs1 ++ docs2) =
    positionsWhere f i docs1 ++ positionsWhere f (i + length docs1) docs2.
Proof.
  induction docs1 as [|d docs1 IH]; intros i docs2; simpl.
  - now rewrite Nat.add_0_r.
  - rewrite IH, <- app_assoc. do 3 f_equal. lia.
Qed.

Lemma positionsWhere_ext f g docs : forall i,
  Forall (fun d => f d = g d) docs -> positionsWhere f i docs = positionsWhere g i docs.
Proof.
  induction docs as [|d docs IH]; intros i Hall; simpl; [reflexivity|].
  apply Forall_cons in Hall as [Hd Hall]. now rewrite Hd, IH.
Qed.

Lemma positionsWhere_none f docs : forall i,
  Forall (fun d => f d = false) docs -> positionsWhere f i docs = [].
Proof.
  induction docs as [|d docs IH]; intros i Hall; simpl; [reflexivity|].
  apply Forall_cons in Hall as [Hd Hall]. now rewrite Hd, IH.
Qed.

Lemma elem_of_positionsWhere f docs : forall i a,
  a ∈ positionsWhere f i docs <->
  exists d, docs !! (a - i) = Some d /\ i <= a /\ f d = true.
Proof.
  induction docs as [|d docs IH]; intros i a; simpl.
  - split; [intros H; inversion H|intros (d & H & _); discriminate].
  - rewrite elem_of_app, IH. split.
    + intros [Hhere|(d' & Hd' & Hle & Hf)].
      * destruct (f d) eqn:Hf; [|inversion Hhere].
        apply list_elem_of_singleton in Hhere as ->.
        exists d. rewrite Nat.sub_diag. auto.
      * exists d'. replace (a - i) with (S (a - S i)) by lia. simpl.
        split; [exact Hd'|]. split; [lia|exact Hf].
    + intros (d' & Hd' & Hle & Hf).
      destruct (decide (a = i)) as [->|Hne].
      * rewrite Nat.sub_diag in Hd'. simpl in Hd'. injection Hd' as ->.
        left. rewrite Hf. now apply list_elem_of_singleton.
      * right. exists d'. replace (a - i) with (S (a - S i)) in Hd' by lia.
        simpl in Hd'. split; [exact Hd'|]. split; [lia|exact Hf].
Qed.

Lemma indexDocs_last docs : forall i map k d,
  docs !! k = Some d ->
  (forall k' d', k < k' -> docs !! k' = Some d' -> flat_id d' <> flat_id d) ->
  indexDocs i docs map !! flat_id d = Some (i + k).
Proof.
  induction docs as [|d0 docs IH]; intros i map k d Hk Hlater; [discriminate|].
  destruct k as [|k]; simpl in *.
  - injection Hk as ->. rewrite indexDocs_other.
    + rewrite lookup_insert_eq. f_equal. lia.
    + intros Hin. apply list_elem_of_fmap in Hin as (d' & Hid & Hd').
      apply list_elem_of_lookup in Hd' as [k' Hk'].
      apply (Hlater (S k') d'); [lia|exact Hk'|now symmetry].
  - rewrite (IH (S i) _ k d Hk).
    + f_equal. lia.
    + intros k' d' Hlt Hk'. apply (Hlater (S k') d'); [lia|exact Hk'].
Qed.

Lemma last_occurrence docs s :
  s ∈ List.map flat_id docs ->
  exists k d, docs !! k = Some d /\ flat_id d = s
    /\ forall k' d', k < k' -> docs !! k' = Some d' -> flat_id d' <> s.
Proof.
  induction docs as [|d0 docs IH]; intros Hin; [inversion Hin|].
  destruct (decide (s ∈ List.map flat_id docs)) as [Hrest|Hrest].
  - destruct (IH Hrest) as (k & d & Hk & Hid & Hlater).
    exists (S k), d. split; [exact Hk|]. split; [exact Hid|].
    intros k' d' Hlt Hk'. destruct k' as [|k']; [lia|].
    apply (Hlater k' d'); [lia|exact Hk'].
  - simpl in Hin. apply elem_of_cons in Hin as [->|Hin]; [|contradiction].
    exists 0, d0. split; [reflexivity|]. split; [reflexivity|].
    intros k' d' Hlt Hk'. destruct k' as [|k']; [lia|]. simpl in Hk'.
    intros Hid. apply Hrest. rewrite <- Hid.
    apply list_elem_of_fmap. exists d'. split; [reflexivity|].
    eapply list_elem_of_lookup_2, Hk'.
Qed.

(** What [map] holds for an id after the first pass: nothing when no
    document has it, and else the address of the last document that has
    it. *)
Lemma indexDocs_lookup docs s :
  match indexDocs 0 docs ∅ !! s with
  | None => s ∉ List.map flat_id docs
  | Some a =>
      exists d, docs !! a = Some d /\ flat_id d = s
        /\ forall k' d', a < k' -> docs !! k' = Some d' -> flat_id d' <> s
  end.
Proof.
  destruct (decide (s ∈ List.map flat_id docs)) as [Hin|Hout].
  - destruct (last_occurrence docs s Hin) as (k & d & Hk & <- & Hlater).
    rewrite (indexDocs_last docs 0 ∅ k d Hk Hlater). simpl. eauto.
  - rewrite indexDocs_other by exact Hout. now rewrite lookup_empty.
Qed.

(** The second pass throws at a document, or files it. *)
Lemma parentSlot_total whole map d :
  (exists slot, parentSlot whole map d = Returns slot)
  \/ parentSlot whole map d = Throws noChildrenError.
Proof.
  unfold parentSlot. destruct (truthy _); [|eauto].
  destruct (map !! _); [eauto|]. destruct (inheritedTruthy _ _ _); eauto.
Qed.

(** With the dictionary of the first pass, it throws at the documents that
    name an inherited key, and files the others under what the dictionary
    holds for their parent id. *)
Lemma parentSlot_indexed docs d :
  parentSlot docs (indexDocs 0 docs ∅) d =
    if namesInherited docs d then Throws noChildrenError
    else Returns (if truthy (flat_parentDocumentId d)
                  then indexDocs 0 docs ∅ !! default "" (flat_parentDocumentId d)
                  else None).
Proof.
  unfold parentSlot, namesInherited.
  destruct (flat_parentDocumentId d) as [p|]; [|reflexivity].
  simpl. destruct (String.eqb p ""); [reflexivity|]. simpl.
  pose proof (indexDocs_lookup docs p) as Hlook.
  destruct (indexDocs 0 docs ∅ !! p) as [a|].
  - destruct Hlook as (d' & Hd' & Hid & _).
    rewrite bool_decide_eq_false_2; [reflexivity|].
    intros Hout. apply Hout. rewrite <- Hid. apply list_elem_of_fmap.
    exists d'. split; [reflexivity|]. eapply list_elem_of_lookup_2, Hd'.
  - rewrite bool_decide_eq_true_2 by exact Hlook. simpl.
    now destruct (inheritedTruthy _ _ _).
Qed.

(** The second pass, when it returns: the roots and the children arrays
    it leaves. *)
Lemma attachDocs_spec whole map docs : forall i heap roots heap' roots',
  attachDocs whole map i docs heap roots = Returns (heap', roots') ->
  roots' = roots ++ positionsWhere (filedUnder whole map None) i docs
  /\ forall q,
       heap' !! q =
         (fun n => mkNode (node_doc n)
                     (node_children n ++ positionsWhere (filedUnder whole map (Some q)) i docs))
           <$> heap !! q.
Proof.
  induction docs as [|d docs IH]; intros i heap roots heap' roots' Hrun; simpl in Hrun.
  - injection Hrun as <- <-. split; [now rewrite app_nil_r|].
    intros q. destruct (heap !! q) as [[nd nc]|]; simpl; [|reflexivity].
    now rewrite app_nil_r.
  - simpl. unfold filedUnder at 1 3.
    destruct (parentSlot whole map d) as [[parent|]|e|] eqn:Hslot; try discriminate Hrun.
    + destruct (IH _ _ _ _ _ Hrun) as [Hroots Hheap].
      split.
      * rewrite Hroots. now rewrite bool_decide_eq_false_2 by discriminate.
      * intros q. rewrite Hheap. destruct (decide (parent = q)) as [->|Hne].
        -- rewrite list_lookup_alter_eq, bool_decide_eq_true_2 by reflexivity.
           destruct (heap !! q) as [[nd nc]|]; simpl; [|reflexivity].
           now rewrite <- app_assoc.
        -- rewrite list_lookup_alter_ne by exact Hne.
           rewrite bool_decide_eq_false_2 by congruence. reflexivity.
    + destruct (IH _ _ _ _ _ Hrun) as [Hroots Hheap].
      split.
      * rewrite Hroots, bool_decide_eq_true_2 by reflexivity. now rewrite <- app_assoc.
      * intros q. rewrite Hheap, bool_decide_eq_false_2 by discriminate. reflexivity.
Qed.

(** The second pass returns when it throws at no document, and throws the
    [TypeError] when it throws at one. *)
Lemma attachDocs_completes whole map docs : forall i heap roots,
  (Forall (fun d => exists slot, parentSlot whole map d = Returns slot) docs ->
   exists r, attachDocs whole map i docs heap roots = Returns r)
  /\ (Exists (fun d => parentSlot whole map d = Throws noChildrenError) docs ->
      attachDocs whole map i docs heap roots = Throws noChildrenError).
Proof.
  induction docs as [|d docs IH]; intros i heap roots; simpl.
  - split; [eauto|]. intros H. inversion H.
  - split.
    + intros Hall. apply Forall_cons in Hall as [[slot Hd] Hall]. rewrite Hd.
      destruct slot as [parent|]; now apply IH.
    + intros Hex. destruct (parentSlot_total whole map d) as [[slot Hd]|Hd]; rewrite Hd.
      * apply Exists_cons in Hex as [Hex|Hex]; [congruence|].
        destruct slot as [parent|]; now apply IH.
      * reflexivity.
Qed.

Lemma buildTree_returns docs :
  Forall (fun d => namesInherited docs d = false) docs ->
  exists b, buildTree docs = Returns b.
Proof.
  intros Hall. unfold buildTree.
  destruct (proj1 (attachDocs_completes docs (indexDocs 0 docs ∅) docs 0
                     (List.map (fun doc => mkNode doc []) docs) [])) as [[h r] ->]; [|eauto].
  eapply Forall_impl; [exact Hall|]. intros d Hd. simpl in Hd.
  rewrite parentSlot_indexed, Hd. eauto.
Qed.

Lemma buildTree_throws docs :
  Exists (fun d => namesInherited docs d = true) docs ->
  buildTree docs = Throws noChildrenError.
Proof.
  intros Hex. unfold buildTree.
  rewrite (proj2 (attachDocs_completes docs (indexDocs 0 docs ∅) docs 0
                    (List.map (fun doc => mkNode doc []) docs) [])); [reflexivity|].
  eapply Exists_impl; [exact Hex|]. intros d Hd. simpl in Hd.
  now rewrite parentSlot_indexed, Hd.
Qed.

(** When [buildTree] has returned, it threw at no document. *)
Lemma buildTree_returned docs b :
  buildTree docs = Returns b -> Forall (fun d => namesInherited docs d = false) docs.
Proof.
  intros Hb. destruct (decide (Forall (fun d => namesInherited docs d = false) docs))
    as [Hall|Hnot]; [exact Hall|].
  apply not_Forall_Exists in Hnot; [|intros d; apply _].
  rewrite buildTree_throws in Hb; [discriminate|].
  eapply Exists_impl; [exact Hnot|]. intros d Hd. simpl in Hd.
  now destruct (namesInherited docs d).
Qed.

Lemma buildTree_run docs b :
  buildTree docs = Returns b ->
  attachDocs docs (indexDocs 0 docs ∅) 0 docs (List.map (fun doc => mkNode doc []) docs) []
    = Returns (heap b, roots b)
  /\ documentMap b = indexDocs 0 docs ∅.
Proof.
  unfold buildTree. destruct (attachDocs _ _ _ _ _ _) as [[h r]|e|]; try discriminate.
  intros [= <-]. split; reflexivity.
Qed.

Lemma buildTree_roots docs b :
  buildTree docs = Returns b ->
  roots b = positionsWhere (filedUnder docs (indexDocs 0 docs ∅) None) 0 docs.
Proof.
  intros Hb. apply buildTree_run in Hb as [Hrun _].
  now destruct (attachDocs_spec _ _ _ _ _ _ _ _ Hrun) as [Hroots _].
Qed.

Lemma buildTree_heap docs b q :
  buildTree docs = Returns b ->
  heap b !! q =
    (fun d => mkNode d (positionsWhere (filedUnder docs (indexDocs 0 docs ∅) (Some q)) 0 docs))
      <$> docs !! q.
Proof.
  intros Hb. apply buildTree_run in Hb as [Hrun _].
  destruct (attachDocs_spec _ _ _ _ _ _ _ _ Hrun) as [_ Hheap].
  rewrite Hheap. change (List.map ?f docs) with (f <$> docs).
  rewrite list_lookup_fmap. now destruct (docs !! q).
Qed.

Lemma buildTree_documentMap docs b :
  buildTree docs = Returns b -> documentMap b = indexDocs 0 docs ∅.
Proof.
  intros Hb. now apply buildTree_run in Hb as [_ Hmap].
Qed.

Lemma buildTree_heap_length docs b :
  buildTree docs = Returns b -> length (heap b) = length docs.
Proof.
  intros Hb. apply Nat.le_antisymm.
  - destruct (Nat.le_gt_cases (length (heap b)) (length docs)) as [H|H]; [exact H|].
    apply lookup_lt_is_Some_2 in H. rewrite (buildTree_heap _ _ _ Hb) in H.
    rewrite lookup_ge_None_2 in H by lia. now destruct H.
  - destruct (Nat.le_gt_cases (length docs) (length (heap b))) as [H|H]; [exact H|].
    assert (Hnone : heap b !! length (heap b) = None)
      by (apply lookup_ge_None_2; lia).
    rewrite (buildTree_heap _ _ _ Hb) in Hnone.
    apply lookup_lt_is_Some_2 in H. destruct H as [x Hx]. now rewrite Hx in Hnone.
Qed.

(** Where a document is filed, by its parent id. *)
Lemma filedUnder_indexed docs d slot :
  namesInherited docs d = false ->
  filedUnder docs (indexDocs 0 docs ∅) slot d =
    bool_decide ((if truthy (flat_parentDocumentId d)
                  then indexDocs 0 docs ∅ !! default "" (flat_parentDocumentId d)
                  else None) = slot).
Proof.
  intros Hd. unfold filedUnder. now rewrite parentSlot_indexed, Hd.
Qed.

(** C8: an orphan whose parent id is the name of a property every object
    inherits is no root: [buildTree] throws a [TypeError] at it and returns
    nothing, where the same list with a parent id that is no such name
    returns with the orphan among the roots. *)
Theorem buildTree_orphan_inherited_name_throws :
  buildTree inheritedNameDocs = Throws noChildrenError
  /\ exists b, buildTree orphanDocs = Returns b /\ roots b = [0; 1].
Proof.
  split; [reflexivity|]. eexists. split; reflexivity.
Qed.

(** ** Flattening a tree and building it again *)

Section TreeInduction.

Variable P : Tree -> Prop.
Hypothesis node : forall i ttl kids, Forall P kids -> P (TreeNode i ttl kids).

Fixpoint Tree_nested_ind (t : Tree) : P t :=
  match t with
  | TreeNode i ttl kids =>
      node i ttl kids
        ((fix all (l : list Tree) : Forall P l :=
            match l with
            | [] => List.Forall_nil P
            | kid :: rest => List.Forall_cons P kid rest (Tree_nested_ind kid) (all rest)
            end) kids)
  end.

End TreeInduction.

Lemma elem_of_flat_map {A B} (f : A -> list B) l y :
  y ∈ flat_map f l <-> exists x, x ∈ l /\ y ∈ f x.
Proof.
  rewrite list_elem_of_In, in_flat_map. split; intros (x & Hx & Hy); exists x.
  - now rewrite !list_elem_of_In.
  - now rewrite <- !list_elem_of_In.
Qed.

Lemma flat_map_map {A B C} (g : A -> B) (f : B -> list C) l :
  flat_map f (List.map g l) = flat_map (fun x => f (g x)) l.
Proof. induction l as [|x l IH]; simpl; [reflexivity|now rewrite IH]. Qed.

(** Flattening the nested form of a tree lists it in preorder, each node
    with the id of its parent, whether or not the nested documents carried
    it. *)
Lemma flattenApiDoc_nested linked t :
  forall p,
    p = None \/ truthy p = true ->
    Forall (fun x => x <> "") (treeIds t) ->
    flattenApiDoc p (treeToNestedDocs linked p t) = preorderFlat p t.
Proof.
  induction t as [i ttl kids IH] using Tree_nested_ind. intros p Hp Hids.
  simpl in Hids. apply Forall_cons in Hids as [Hi Hkids].
  cbn [treeToNestedDocs flattenApiDoc preorderFlat id title parentDocumentId children].
  f_equal.
  - f_equal. destruct linked.
    + now destruct (truthy p && negb (truthy p)).
    + destruct Hp as [->| ->]; reflexivity.
  - rewrite flat_map_map.
    rewrite Forall_forall in IH. rewrite Forall_forall in Hkids.
    apply (flat_map_Forall_eq (fun kid => kid ∈ kids)).
    + now apply Forall_forall.
    + intros kid Hkid. apply (IH kid Hkid).
      * right. simpl. apply String.eqb_neq in Hi. now rewrite Hi.
      * apply Forall_forall. intros x Hx. apply Hkids.
        apply elem_of_flat_map. eauto.
Qed.

Lemma preorderFlat_ids t : forall p, List.map flat_id (preorderFlat p t) = treeIds t.
Proof.
  induction t as [i ttl kids IH] using Tree_nested_ind. intros p. simpl. f_equal.
  rewrite map_flat_map. apply (flat_map_Forall_eq _ _ _ _ IH). auto.
Qed.

Lemma preorderFlat_length t p : length (preorderFlat p t) = treeSize t.
Proof. unfold treeSize. now rewrite <- (preorderFlat_ids t p), length_map. Qed.

Lemma preorderForest_ids forest p :
  List.map flat_id (flat_map (preorderFlat p) forest) = flat_map treeIds forest.
Proof.
  rewrite map_flat_map. apply (flat_map_Forall_eq (fun _ => True)).
  - now apply Forall_forall.
  - intros t _. apply preorderFlat_ids.
Qed.

(** The parent a listed node names is the one the listing was started with,
    or a node of the tree. *)
Lemma preorderFlat_parent t :
  forall p d, d ∈ preorderFlat p t ->
    flat_parentDocumentId d = p \/ exists x, x ∈ treeIds t /\ flat_parentDocumentId d = Some x.
Proof.
  induction t as [i ttl kids IH] using Tree_nested_ind. intros p d Hd.
  simpl in Hd. apply elem_of_cons in Hd as [->|Hd]; [now left|].
  right. apply elem_of_flat_map in Hd as (kid & Hkid & Hd).
  rewrite Forall_forall in IH.
  destruct (IH kid Hkid _ _ Hd) as [Hp|(x & Hx & Hp)].
  - exists i. split; [simpl; left|exact Hp].
  - exists x. split; [|exact Hp]. simpl. right. apply elem_of_flat_map. eauto.
Qed.

Lemma preorderForest_parent forest p d :
  d ∈ flat_map (preorderFlat p) forest ->
  flat_parentDocumentId d = p
  \/ exists x, x ∈ flat_map treeIds forest /\ flat_parentDocumentId d = Some x.
Proof.
  intros Hd. apply elem_of_flat_map in Hd as (t & Ht & Hd).
  destruct (preorderFlat_parent t p d Hd) as [Hp|(x & Hx & Hp)]; [now left|].
  right. exists x. split; [|exact Hp]. apply elem_of_flat_map. eauto.
Qed.

(** In the listing of a forest under [q], the documents that name [q] are
    the tops of its trees, when [q] is not a node of the forest. *)
Lemma positionsWhere_tops q forest : forall off,
  (forall x, x ∈ flat_map treeIds forest -> q <> Some x) ->
  positionsWhere (hasParent q) off (flat_map (preorderFlat q) forest) = topAddresses off forest.
Proof.
  induction forest as [|t rest IH]; intros off Hq; [reflexivity|].
  destruct t as [i ttl kids].
  cbn [flat_map preorderFlat topAddresses]. rewrite <- app_comm_cons.
  cbn [positionsWhere]. unfold hasParent at 1. cbn [flat_parentDocumentId].
  rewrite bool_decide_eq_true_2 by reflexivity. cbn [app]. f_equal.
  rewrite positionsWhere_app, positionsWhere_none.
  - cbn [app]. rewrite IH.
    + f_equal. unfold treeSize. cbn [treeIds length].
      rewrite <- (preorderForest_ids kids (Some i)), length_map. lia.
    + intros x Hx. apply Hq. simpl. right. apply elem_of_app. now right.
  - apply Forall_forall. intros d Hd. unfold hasParent. apply bool_decide_eq_false_2.
    destruct (preorderForest_parent kids (Some i) d Hd) as [Hp|(x & Hx & Hp)];
      rewrite Hp; intros <-.
    + apply (Hq i); [simpl; left|reflexivity].
    + apply (Hq x); [|reflexivity]. simpl. right. apply elem_of_app. now left.
Qed.

Section ReadBack.

Variable whole : list FlatDoc.
Variable heap : list Node.
Hypothesis store : storeOf whole heap.

Lemma readDoc_forest forest :
  Forall (fun t => forall pre suf p fuel,
            whole = pre ++ preorderFlat p t ++ suf ->
            NoDup (treeIds t) ->
            namedByNone (treeIds t) p (pre ++ suf) ->
            treeSize t <= fuel ->
            readDoc fuel heap (length pre) = Some (treeToNestedDocs true p t)) forest ->
  forall pre suf p fuel,
    whole = pre ++ flat_map (preorderFlat p) forest ++ suf ->
    NoDup (flat_map treeIds forest) ->
    namedByNone (flat_map treeIds forest) p (pre ++ suf) ->
    length (flat_map treeIds forest) <= fuel ->
    mapM (readDoc fuel heap) (topAddresses (length pre) forest)
    = Some (List.map (treeToNestedDocs true p) forest).
Proof.
  induction 1 as [|t rest Ht _ IH]; intros pre suf p fuel Hwhole Hnd [Hp Hout] Hfuel;
    [reflexivity|].
  cbn [flat_map] in *. apply NoDup_app in Hnd as (Hndt & Hdisj & Hndrest).
  rewrite length_app in Hfuel.
  cbn [topAddresses List.map mapM].
  replace (length pre + treeSize t) with (length (pre ++ preorderFlat p t))
    by (now rewrite length_app, preorderFlat_length).
  rewrite (Ht pre (flat_map (preorderFlat p) rest ++ suf) p fuel).
  - rewrite (IH (pre ++ preorderFlat p t) suf p fuel).
    + reflexivity.
    + rewrite Hwhole. now rewrite <- !app_assoc.
    + exact Hndrest.
    + split.
      * intros x Hx. apply Hp, elem_of_app. now right.
      * intros d x Hd Hx. rewrite <- app_assoc in Hd.
        apply elem_of_app in Hd as [Hd|Hd]; [|apply elem_of_app in Hd as [Hd|Hd]].
        -- apply Hout; apply elem_of_app; [now left|now right].
        -- destruct (preorderFlat_parent t p d Hd) as [->|(y & Hy & ->)].
           ++ apply Hp, elem_of_app. now right.
           ++ intros [= ->]. exact (Hdisj x Hy Hx).
        -- apply Hout; apply elem_of_app; now right.
    + lia.
  - rewrite Hwhole. now rewrite <- !app_assoc.
  - exact Hndt.
  - split.
    + intros x Hx. apply Hp, elem_of_app. now left.
    + intros d x Hd Hx.
      apply elem_of_app in Hd as [Hd|Hd]; [|apply elem_of_app in Hd as [Hd|Hd]].
      * apply Hout; apply elem_of_app; now left.
      * destruct (preorderForest_parent rest p d Hd) as [->|(y & Hy & ->)].
        -- apply Hp, elem_of_app. now left.
        -- intros [= ->]. exact (Hdisj x Hx Hy).
      * apply Hout; [apply elem_of_app; now right|apply elem_of_app; now left].
  - unfold treeSize. lia.
Qed.

Lemma readDoc_tree t :
  forall pre suf p fuel,
    whole = pre ++ preorderFlat p t ++ suf ->
    NoDup (treeIds t) ->
    namedByNone (treeIds t) p (pre ++ suf) ->
    treeSize t <= fuel ->
    readDoc fuel heap (length pre) = Some (treeToNestedDocs true p t).
Proof.
  induction t as [i ttl kids IH] using Tree_nested_ind.
  intros pre suf p fuel Hwhole Hnd [Hp Hout] Hfuel.
  unfold treeSize in Hfuel. cbn [treeIds length] in *.
  destruct fuel as [|fuel]; [lia|].
  apply NoDup_cons in Hnd as [Hfresh Hnd].
  cbn [preorderFlat] in Hwhole.
  assert (Hat : whole !! length pre = Some (mkFlatDoc i ttl p)).
  { rewrite Hwhole, lookup_app_r, Nat.sub_diag by lia. reflexivity. }
  cbn [readDoc]. rewrite (store _ _ Hat). cbn [mbind option_bind node_children node_doc
    flat_id flat_title flat_parentDocumentId].
  assert (Hkids : positionsWhere (hasParent (Some i)) 0 whole
                  = topAddresses (length (pre ++ [mkFlatDoc i ttl p])) kids).
  { rewrite Hwhole, positionsWhere_app, positionsWhere_none.
    - rewrite <- app_comm_cons. cbn [positionsWhere app]. unfold hasParent at 1.
      cbn [flat_parentDocumentId].
      rewrite bool_decide_eq_false_2 by (apply Hp; left).
      rewrite positionsWhere_app, positionsWhere_tops.
      + rewrite (positionsWhere_none _ suf).
        * rewrite app_nil_r, length_app. simpl. f_equal. lia.
        * apply Forall_forall. intros d Hd. apply bool_decide_eq_false_2.
          apply Hout; [apply elem_of_app; now right|left].
      + intros x Hx [= ->]. contradiction.
    - apply Forall_forall. intros d Hd. apply bool_decide_eq_false_2.
      apply Hout; [apply elem_of_app; now left|left]. }
  rewrite Hkids.
  rewrite (readDoc_forest kids IH (pre ++ [mkFlatDoc i ttl p]) suf (Some i) fuel).
  - reflexivity.
  - rewrite Hwhole. now rewrite <- app_assoc.
  - exact Hnd.
  - split.
    + intros x Hx [= ->]. contradiction.
    + intros d x Hd Hx. rewrite <- app_assoc in Hd.
      apply elem_of_app in Hd as [Hd|Hd]; [|apply elem_of_cons in Hd as [->|Hd]].
      * apply Hout; [apply elem_of_app; now left|now right].
      * apply Hp. now right.
      * apply Hout; [apply elem_of_app; now right|now right].
  - lia.
Qed.

End ReadBack.

(** A list in which every parent id is the id of a listed document makes
    [buildTree] throw at none. *)
Lemma namesInherited_listed docs d :
  (forall p, flat_parentDocumentId d = Some p -> p ∈ List.map flat_id docs) ->
  namesInherited docs d = false.
Proof.
  intros Hlisted. unfold namesInherited.
  destruct (flat_parentDocumentId d) as [p|]; [|reflexivity].
  rewrite (bool_decide_eq_false_2 (p ∉ _)) by (intros Hout; now apply Hout, Hlisted).
  now rewrite andb_false_r.
Qed.

(** With unique, non-empty ids, the children array of each object holds
    the documents that name its id as their parent. *)
Lemma buildTree_store docs b :
  buildTree docs = Returns b ->
  NoDup (List.map flat_id docs) ->
  Forall (fun d => flat_id d <> "") docs ->
  storeOf docs (heap b).
Proof.
  intros Hb Hnd Hids q d Hq. rewrite (buildTree_heap _ _ _ Hb), Hq. simpl. do 2 f_equal.
  pose proof (buildTree_returned _ _ Hb) as Hfine. rewrite Forall_forall in Hfine.
  apply positionsWhere_ext, Forall_forall. intros d' Hd'.
  rewrite filedUnder_indexed by (now apply Hfine).
  unfold hasParent. apply bool_decide_ext.
  assert (Hd : flat_id d <> "").
  { rewrite Forall_forall in Hids. apply Hids. eapply list_elem_of_lookup_2, Hq. }
  destruct (flat_parentDocumentId d') as [s|]; simpl; [|split; discriminate].
  destruct (String.eqb_spec s "") as [->|Hs]; simpl.
  - split; [discriminate|]. intros [= Hempty]. now symmetry in Hempty.
  - split.
    + intros Hslot. apply indexDocs_Some in Hslot as [Hslot|(d'' & Hd'' & _ & Hid)].
      * now rewrite lookup_empty in Hslot.
      * rewrite Nat.sub_0_r, Hq in Hd''. injection Hd'' as <-. now rewrite Hid.
    + intros [= ->]. now rewrite (indexDocs_unique docs 0 ∅ q d Hnd Hq).
Qed.

(** The preorder listing of a forest names listed documents only. *)
Lemma preorderForest_listed forest d :
  d ∈ flat_map (preorderFlat None) forest ->
  namesInherited (flat_map (preorderFlat None) forest) d = false.
Proof.
  intros Hd. apply namesInherited_listed. intros p Hp.
  destruct (preorderForest_parent forest None d Hd) as [Hnone|(x & Hx & Hsome)];
    [congruence|].
  rewrite preorderForest_ids. congruence.
Qed.

Lemma buildTree_roots_tops forest b :
  buildTree (flat_map (preorderFlat None) forest) = Returns b ->
  NoDup (flat_map treeIds forest) ->
  Forall (fun x => x <> "") (flat_map treeIds forest) ->
  roots b = topAddresses 0 forest.
Proof.
  intros Hb Hnd Hids. rewrite (buildTree_roots _ _ Hb).
  rewrite <- (positionsWhere_tops None forest 0) by discriminate.
  apply positionsWhere_ext, Forall_forall. intros d Hd.
  rewrite filedUnder_indexed by (now apply preorderForest_listed).
  unfold hasParent. apply bool_decide_ext.
  destruct (preorderForest_parent forest None d Hd) as [->|(x & Hx & ->)]; [easy|].
  rewrite Forall_forall in Hids. specialize (Hids x Hx).
  simpl. apply String.eqb_neq in Hids. rewrite Hids. simpl.
  split; [|discriminate]. intros Hnone. exfalso.
  rewrite <- preorderForest_ids with (p := None) in Hx, Hnd.
  apply list_elem_of_fmap in Hx as (dx & -> & Hdx).
  apply list_elem_of_lookup in Hdx as [k Hk].
  now rewrite (indexDocs_unique _ 0 ∅ k dx Hnd Hk) in Hnone.
Qed.

(** The forest read back after flattening and building, as in the handlers
    of the two collection dropdowns. *)
Lemma readForest_flattened linked forest :
  NoDup (flat_map treeIds forest) ->
  Forall (fun x => x <> "") (flat_map treeIds forest) ->
  flattenApiDocs (List.map (treeToNestedDocs linked None) forest) None
    = flat_map (preorderFlat None) forest
  /\ exists b,
       buildTree (flat_map (preorderFlat None) forest) = Returns b
       /\ readForest b = Some (List.map (treeToNestedDocs true None) forest).
Proof.
  intros Hnd Hids. split.
  { unfold flattenApiDocs. rewrite flat_map_map.
    apply (flat_map_Forall_eq (fun t => t ∈ forest)); [now apply Forall_forall|].
    intros t Ht. apply flattenApiDoc_nested; [now left|].
    rewrite Forall_forall in Hids. apply Forall_forall. intros x Hx.
    apply Hids, elem_of_flat_map. eauto. }
  set (whole := flat_map (preorderFlat None) forest).
  destruct (buildTree_returns whole) as [b Hb].
  { apply Forall_forall. intros d Hd. now apply preorderForest_listed. }
  exists b. split; [exact Hb|].
  unfold readForest. rewrite (buildTree_roots_tops forest b Hb) by assumption.
  assert (Hstore : storeOf whole (heap b)).
  { apply (buildTree_store whole b Hb).
    - unfold whole. now rewrite preorderForest_ids.
    - apply Forall_forall. intros d Hd. rewrite Forall_forall in Hids. apply Hids.
      rewrite <- preorderForest_ids with (p := None). apply list_elem_of_fmap. eauto. }
  apply (readDoc_forest whole (heap b) forest) with (pre := []) (suf := []).
  - apply Forall_forall. intros t _. now apply readDoc_tree.
  - now rewrite app_nil_r.
  - exact Hnd.
  - split; [discriminate|]. intros d x Hd. inversion Hd.
  - rewrite (buildTree_heap_length _ _ Hb). unfold whole.
    now rewrite <- (preorderForest_ids forest None), length_map.
Qed.

(** C3: for a forest whose ids are non-empty and pairwise distinct,
    flattening its nested-document form, with or without the parent ids in
    the nested documents, and building the tree again gives the forest
    back: [buildTree] returns, the roots are the trees of the forest in
    order, each node has the children it has in the forest, in order, and
    each child carries the id of its parent as [parentDocumentId]. *)
Theorem flatten_buildTree_round_trip linked forest :
  NoDup (flat_map treeIds forest) ->
  Forall (fun x => x <> "") (flat_map treeIds forest) ->
  exists b,
    buildTree (flattenApiDocs (List.map (treeToNestedDocs linked None) forest) None)
      = Returns b
    /\ readForest b = Some (List.map (treeToNestedDocs true None) forest).
Proof.
  intros Hnd Hids.
  assert (Hflat : flattenApiDocs (List.map (treeToNestedDocs linked None) forest) None
                  = flat_map (preorderFlat None) forest).
  { unfold flattenApiDocs. rewrite flat_map_map.
    apply (flat_map_Forall_eq (fun t => t ∈ forest)); [now apply Forall_forall|].
    intros t Ht. apply flattenApiDoc_nested; [now left|].
    rewrite Forall_forall in Hids. apply Forall_forall. intros x Hx.
    apply Hids, elem_of_flat_map. eauto. }
  rewrite Hflat.
  set (whole := flat_map (preorderFlat None) forest).
  destruct (buildTree_returns whole) as [b Hb].
  { apply Forall_forall. intros d Hd. now apply preorderForest_listed. }
  exists b. split; [exact Hb|].
  unfold readForest. rewrite (buildTree_roots_tops forest b Hb) by assumption.
  assert (Hstore : storeOf whole (heap b)).
  { apply (buildTree_store whole b Hb).
    - unfold whole. now rewrite preorderForest_ids.
    - apply Forall_forall. intros d Hd. rewrite Forall_forall in Hids. apply Hids.
      rewrite <- preorderForest_ids with (p := None).
      apply list_elem_of_fmap. eauto. }
  apply (readDoc_forest whole (heap b) forest) with (pre := []) (suf := []).
  - apply Forall_forall. intros t _. now apply readDoc_tree.
  - now rewrite app_nil_r.
  - exact Hnd.
  - split; [discriminate|]. intros d x Hd. inversion Hd.
  - rewrite (buildTree_heap_length _ _ Hb). unfold whole.
    now rewrite <- (preorderForest_ids forest None), length_map.
Qed.

Lemma flatten_buildTree_round_trip_witness :
  exists b,
    buildTree (flattenApiDocs (List.map (treeToNestedDocs false None) sampleForest) None)
      = Returns b
    /\ readForest b = Some [docA].
Proof.
  apply (flatten_buildTree_round_trip false sampleForest).
  - apply (bool_decide_unpack _). vm_compute. exact I.
  - apply (bool_decide_unpack _). vm_compute. exact I.
Defined.

(** * Further properties *)

(** ** utils.js: where the result of [retryFetch] comes from *)

(** A run of the loop ends at the first iteration that does not go on, or
    falls off the end. *)
Lemma retryLoop_result fetch maxRetries backoff l :
  match snd (retryLoop fetch maxRetries backoff l) with
  | Resolved r =>
      exists pre k post,
        l = pre ++ k :: post
        /\ Forall (fun j => retries maxRetries j (fetch j) = true) pre
        /\ fetch k = Responds r /\ status r <> 429%Z
        /\ fst (retryLoop fetch maxRetries backoff l) = goingOn fetch backoff pre ++ [EvFetch k]
  | Rejected e =>
      exists pre post,
        l = pre ++ maxRetries :: post
        /\ Forall (fun j => retries maxRetries j (fetch j) = true) pre
        /\ fetch maxRetries = Fails e
        /\ fst (retryLoop fetch maxRetries backoff l)
           = goingOn fetch backoff pre ++ [EvFetch maxRetries]
  | ResolvedUndefined =>
      Forall (fun j => retries maxRetries j (fetch j) = true) l
      /\ fst (retryLoop fetch maxRetries backoff l) = goingOn fetch backoff l
  end.
Proof.
  induction l as [|j l IH]; [split; [constructor|reflexivity]|].
  destruct (retries maxRetries j (fetch j)) eqn:Hgo.
  - rewrite retryLoop_go_on by exact Hgo. cbn [fst snd].
    destruct (snd (retryLoop fetch maxRetries backoff l)) as [r| |e].
    + destruct IH as (pre & k & post & -> & Hpre & Hk & Hr & Hevs).
      exists (j :: pre), k, post. rewrite Hevs. repeat split; auto.
    + destruct IH as [Hall Hevs]. rewrite Hevs. split; [now constructor|reflexivity].
    + destruct IH as (pre & post & -> & Hpre & Hk & Hevs).
      exists (j :: pre), post. rewrite Hevs. repeat split; auto.
  - unfold retries in Hgo. cbn [retryLoop].
    destruct (fetch j) as [r|e] eqn:Hj.
    + rewrite Hgo. cbn [fst snd]. exists [], j, l.
      repeat split; auto. now apply Z.eqb_neq.
    + apply negb_false_iff in Hgo. rewrite Hgo. apply Nat.eqb_eq in Hgo as ->.
      cbn [fst snd]. exists [], l. repeat split; auto.
Qed.

Lemma seq_split_at a n (pre : list nat) k post :
  seq a n = pre ++ k :: post ->
  pre = seq a (length pre) /\ k = a + length pre /\ length pre < n.
Proof.
  revert a n. induction pre as [|x pre IH]; intros a n Hseq.
  - destruct n as [|n]; [discriminate|]. simpl in Hseq. injection Hseq as <- _.
    simpl. repeat split; lia.
  - destruct n as [|n]; [discriminate|]. simpl in Hseq. injection Hseq as <- Hrest.
    destruct (IH _ _ Hrest) as (Hpre & -> & Hlen). simpl.
    split; [now rewrite <- Hpre|]. split; lia.
Qed.

(** X1: the response [retryFetch] resolves with is never a 429: it is the
    response of the first attempt that neither failed nor was rate limited,
    every attempt before it was retried, and no attempt follows it. *)
Theorem retryFetch_resolves_with_first_other_response fetch maxRetries backoff r :
  snd (retryFetch fetch maxRetries backoff) = Resolved r ->
  status r <> 429%Z
  /\ exists k,
       k <= maxRetries
       /\ fetch k = Responds r
       /\ (forall j, j < k -> retries maxRetries j (fetch j) = true)
       /\ fst (retryFetch fetch maxRetries backoff)
          = goingOn fetch backoff (seq 0 k) ++ [EvFetch k].
Proof.
  intros Hres. unfold retryFetch in *.
  pose proof (retryLoop_result fetch maxRetries backoff (seq 0 (S maxRetries))) as H.
  rewrite Hres in H. destruct H as (pre & k & post & Hseq & Hpre & Hk & Hr & Hevs).
  destruct (seq_split_at _ _ _ _ _ Hseq) as (Hpre' & -> & Hlen).
  split; [exact Hr|]. exists (length pre). simpl. repeat split; auto; [lia| |].
  - intros j Hj. rewrite Forall_forall in Hpre. apply Hpre.
    rewrite Hpre'. apply list_elem_of_In, in_seq. lia.
  - now rewrite <- Hpre'.
Qed.

Lemma retryFetch_resolves_with_first_other_response_witness :
  status (okResponse JNull) <> 429%Z
  /\ exists k, k <= 3 /\ timesOutTwice k = Responds (okResponse JNull)
       /\ (forall j, j < k -> retries 3 j (timesOutTwice j) = true)
       /\ fst (retryFetch timesOutTwice 3 500)
          = goingOn timesOutTwice 500 (seq 0 k) ++ [EvFetch k].
Proof.
  apply (retryFetch_resolves_with_first_other_response timesOutTwice 3 500). reflexivity.
Defined.

(** X2: the error [retryFetch] rejects with is the error of the attempt
    numbered [maxRetries]; the errors of the earlier attempts are dropped,
    each after its backoff delay. *)
Theorem retryFetch_rejects_with_last_error fetch maxRetries backoff e :
  snd (retryFetch fetch maxRetries backoff) = Rejected e ->
  fetch maxRetries = Fails e
  /\ (forall j, j < maxRetries -> retries maxRetries j (fetch j) = true)
  /\ fst (retryFetch fetch maxRetries backoff)
     = goingOn fetch backoff (seq 0 maxRetries) ++ [EvFetch maxRetries].
Proof.
  intros Hres. unfold retryFetch in *.
  pose proof (retryLoop_result fetch maxRetries backoff (seq 0 (S maxRetries))) as H.
  rewrite Hres in H. destruct H as (pre & post & Hseq & Hpre & Hk & Hevs).
  destruct (seq_split_at _ _ _ _ _ Hseq) as (Hpre' & Hlen & _). simpl in Hlen.
  split; [exact Hk|]. split.
  - intros j Hj. rewrite Forall_forall in Hpre. apply Hpre.
    rewrite Hpre'. apply list_elem_of_In, in_seq. lia.
  - rewrite Hevs. now rewrite Hlen, <- Hpre'.
Qed.

Lemma retryFetch_rejects_with_last_error_witness :
  alwaysTimesOut 3 = Fails (Error "Request timed out")
  /\ (forall j, j < 3 -> retries 3 j (alwaysTimesOut j) = true)
  /\ fst (retryFetch alwaysTimesOut 3 500)
     = goingOn alwaysTimesOut 500 (seq 0 3) ++ [EvFetch 3].
Proof.
  apply (retryFetch_rejects_with_last_error alwaysTimesOut 3 500). reflexivity.
Defined.

(** X3: whatever the attempts do, a call makes at least one and at most
    [maxRetries + 1] of them, numbered 0, 1, 2, ... without a gap, and
    sleeps once between two attempts. *)
Theorem retryFetch_attempts_bounded fetch maxRetries backoff :
  exists n,
    1 <= n <= S maxRetries
    /\ List.filter (fun e => match e with EvFetch _ => true | EvSleep _ => false end)
         (fst (retryFetch fetch maxRetries backoff))
       = List.map EvFetch (seq 0 n)
    /\ n - 1 <= length (sleeps (fst (retryFetch fetch maxRetries backoff))) <= n.
Proof.
  assert (Hfilter : forall l,
    List.filter (fun e => match e with EvFetch _ => true | EvSleep _ => false end)
      (goingOn fetch backoff l) = List.map EvFetch l).
  { induction l as [|j l IH]; simpl; [reflexivity|now rewrite IH]. }
  assert (Hsleeps : forall l, length (sleeps (goingOn fetch backoff l)) = length l).
  { unfold sleeps. induction l as [|j l IH]; simpl; [reflexivity|]. f_equal. exact IH. }
  unfold retryFetch.
  pose proof (retryLoop_result fetch maxRetries backoff (seq 0 (S maxRetries))) as H.
  destruct (snd (retryLoop fetch maxRetries backoff (seq 0 (S maxRetries)))) as [r| |e].
  - destruct H as (pre & k & post & Hseq & _ & _ & _ & ->).
    destruct (seq_split_at _ _ _ _ _ Hseq) as (Hpre & -> & Hlen).
    exists (S (length pre)). split; [lia|].
    rewrite List.filter_app, Hfilter. unfold sleeps. rewrite flat_map_app.
    fold (sleeps (goingOn fetch backoff pre)). rewrite length_app, Hsleeps.
    split; [|simpl; lia]. rewrite seq_S, List.map_app. simpl. now rewrite <- Hpre.
  - destruct H as [_ ->]. exists (S maxRetries). split; [lia|].
    rewrite Hfilter, Hsleeps, length_seq. split; [reflexivity|lia].
  - destruct H as (pre & post & Hseq & _ & _ & ->).
    destruct (seq_split_at _ _ _ _ _ Hseq) as (Hpre & Hk & Hlen).
    exists (S (length pre)). split; [lia|].
    rewrite List.filter_app, Hfilter. unfold sleeps. rewrite flat_map_app.
    fold (sleeps (goingOn fetch backoff pre)). rewrite length_app, Hsleeps.
    split; [|simpl; lia]. rewrite seq_S, List.map_app. simpl. rewrite <- Hpre.
    simpl in Hk. now rewrite Hk.
Qed.

Lemma sumDelays_backoff backoff n : forall a,
  sumDelays (List.map (fun k => backoffDelay backoff k) (seq a n))
  = Some (backoff * 2 ^ Z.of_nat a * (2 ^ Z.of_nat n - 1))%Z.
Proof.
  induction n as [|n IH]; intros a.
  - simpl. f_equal. lia.
  - cbn [seq List.map sumDelays backoffDelay]. rewrite IH. simpl. f_equal.
    rewrite !Nat2Z.inj_succ, !Z.pow_succ_r by lia. lia.
Qed.

(** X4: when every attempt fails, the call sleeps [backoff * 2^k] after
    attempt [k] for each [k] below [maxRetries], [backoff * (2^maxRetries - 1)]
    in all, before it rejects. *)
Theorem retryFetch_total_backoff fetch maxRetries backoff :
  (forall j, j <= maxRetries -> exists e, fetch j = Fails e) ->
  sleeps (fst (retryFetch fetch maxRetries backoff))
  = List.map (fun k => Finite (backoff * 2 ^ Z.of_nat k)) (seq 0 maxRetries)
  /\ sumDelays (sleeps (fst (retryFetch fetch maxRetries backoff)))
     = Some (backoff * (2 ^ Z.of_nat maxRetries - 1))%Z
  /\ exists e, snd (retryFetch fetch maxRetries backoff) = Rejected e.
Proof.
  intros Hfail.
  assert (Hgo : forall j, j < maxRetries -> retries maxRetries j (fetch j) = true).
  { intros j Hj. destruct (Hfail j) as [e ->]; [lia|]. simpl.
    apply negb_true_iff, Nat.eqb_neq. lia. }
  destruct (Hfail maxRetries (le_n _)) as [e He].
  rewrite (retryFetch_reaches fetch maxRetries backoff maxRetries) by (try lia; exact Hgo).
  replace (S maxRetries - maxRetries) with 1 by lia.
  cbn [seq retryLoop]. rewrite He, Nat.eqb_refl. cbn [fst snd].
  assert (Hsleeps : sleeps (goingOn fetch backoff (seq 0 maxRetries) ++ [EvFetch maxRetries])
                    = List.map (fun k => backoffDelay backoff k) (seq 0 maxRetries)).
  { unfold sleeps. rewrite flat_map_app. simpl. rewrite app_nil_r.
    assert (Hall : Forall (fun j => exists e, fetch j = Fails e) (seq 0 maxRetries)).
    { apply seq_Forall_below. intros j Hj. apply Hfail. lia. }
    induction Hall as [|j l [ej Hj] _ IH]; [reflexivity|].
    simpl. unfold delayAfter at 1. rewrite Hj. f_equal. exact IH. }
  rewrite Hsleeps. split; [reflexivity|]. split; [|eauto].
  rewrite sumDelays_backoff. f_equal. simpl. lia.
Qed.

Lemma retryFetch_total_backoff_witness :
  sleeps (fst (retryFetch alwaysTimesOut MAX_RETRIES INITIAL_BACKOFF))
  = [Finite 500; Finite 1000; Finite 2000]
  /\ sumDelays (sleeps (fst (retryFetch alwaysTimesOut MAX_RETRIES INITIAL_BACKOFF)))
     = Some 3500%Z.
Proof.
  destruct (retryFetch_total_backoff alwaysTimesOut MAX_RETRIES INITIAL_BACKOFF)
    as (Hs & Hsum & _).
  - intros j _. exists (Error "Request timed out"). reflexivity.
  - split; [exact Hs|exact Hsum].
Defined.

(** ** outlineAPI.js: the other operations *)

Section MoreClientProperties.

Variable JSON_stringify : Json -> string.
Variable net : Network.
Variable api : OutlineAPI.

Lemma getCollectionDocuments_sends collectionId log :
  fst (getCollectionDocuments JSON_stringify net api collectionId log)
  = log ++ [post api "collections.documents" (CollectionsDocuments collectionId 1 1000)].
Proof.
  unfold getCollectionDocuments, bind, awaitRetryFetch, defined, throwUnlessOk, awaitJson,
    liftC, ret, throw.
  destruct (snd (retryFetch _ _ _)) as [r| |e]; simpl; try reflexivity.
  destruct (ok r); simpl; [|reflexivity]. destruct (json r); reflexivity.
Qed.

(** X5: [getCollectionDocuments] asks once, for at most 1000 documents from
    offset 1, whatever the answer; with a response that is not [ok] it
    throws [OutlineApiError] with the status; with one that is [ok] and
    parses it returns the [data] of the body. *)
Theorem getCollectionDocuments_one_page collectionId log :
  fst (getCollectionDocuments JSON_stringify net api collectionId log)
  = log ++ [post api "collections.documents" (CollectionsDocuments collectionId 1 1000)]
  /\ forall r,
       snd (retryFetch (net (length log)
              (post api "collections.documents" (CollectionsDocuments collectionId 1 1000)))
              MAX_RETRIES INITIAL_BACKOFF) = Resolved r ->
       (ok r = false ->
        snd (getCollectionDocuments JSON_stringify net api collectionId log)
        = Throws (OutlineApiError
                    (parseApiError JSON_stringify r "Fetching collection documents failed")
                    (status r)))
       /\ (ok r = true -> forall d, json r = Some d ->
           snd (getCollectionDocuments JSON_stringify net api collectionId log)
           = getProp (Val d) "data").
Proof.
  split.
  - apply getCollectionDocuments_sends.
  - intros r Hres. unfold getCollectionDocuments.
    rewrite (checked_operation _ _ _ _ _ _ _ Hres). split.
    + intros ->. reflexivity.
    + intros -> d ->. reflexivity.
Qed.

Lemma listCollectionsLoop_fails fuel acc i logc r :
  snd (retryFetch (net (length logc) (listRequest api i)) MAX_RETRIES INITIAL_BACKOFF)
    = Resolved r ->
  ok r = false ->
  listCollectionsLoop JSON_stringify net api (S fuel) acc (1 + limit * i) logc =
    (logc ++ [listRequest api i],
     Throws (OutlineApiError (parseApiError JSON_stringify r "Listing collections failed")
               (status r))).
Proof.
  intros Hres Hok. cbn [listCollectionsLoop].
  rewrite (checked_operation _ _ _ _ _ _ _ Hres). now rewrite Hok.
Qed.

(** X6: when the [k]-th page of the listing comes back not [ok] after [k]
    full pages, [listCollections] throws [OutlineApiError] with that status
    after its [k + 1] requests: the collections of the pages read so far
    are not returned. *)
Theorem listCollections_fails_on_bad_page (pages : nat -> Value) k log r :
  (forall i, i < k -> answers net (length log + i) (listRequest api i) (pages i)) ->
  (forall i, i < k -> lastPage (pages i) = false) ->
  snd (retryFetch (net (length log + k) (listRequest api k)) MAX_RETRIES INITIAL_BACKOFF)
    = Resolved r ->
  ok r = false ->
  forall fuel, k < fuel ->
    listCollections JSON_stringify net api fuel log =
      (log ++ List.map (listRequest api) (seq 0 (S k)),
       Throws (OutlineApiError (parseApiError JSON_stringify r "Listing collections failed")
                 (status r))).
Proof.
  intros Hans Hfull Hres Hok fuel Hfuel. unfold listCollections.
  change 1 with (1 + limit * 0) at 1.
  assert (Hgen : forall k fuel acc a logc,
    k < fuel ->
    (forall i, i < k -> answers net (length logc + i) (listRequest api (a + i)) (pages (a + i))) ->
    (forall i, i < k -> lastPage (pages (a + i)) = false) ->
    snd (retryFetch (net (length logc + k) (listRequest api (a + k))) MAX_RETRIES INITIAL_BACKOFF)
      = Resolved r ->
    listCollectionsLoop JSON_stringify net api fuel acc (1 + limit * a) logc =
      (logc ++ List.map (listRequest api) (seq a (S k)),
       Throws (OutlineApiError (parseApiError JSON_stringify r "Listing collections failed")
                 (status r)))).
  { clear - Hok. induction k as [|k IH]; intros fuel acc a logc Hfuel Hans Hfull Hres;
      (destruct fuel as [|fuel]; [lia|]).
    - rewrite !Nat.add_0_r in Hres. now rewrite (listCollectionsLoop_fails _ _ _ _ r).
    - rewrite (listCollectionsLoop_step _ net api fuel acc a logc (pages a)).
      + specialize (Hfull 0 (Nat.lt_0_succ _)) as Hfirst.
        rewrite Nat.add_0_r in Hfirst. rewrite Hfirst.
        rewrite (IH fuel (acc ++ pageItems (pages a)) (S a)).
        * cbn [seq List.map]. now rewrite <- !app_assoc.
        * lia.
        * intros i Hi. rewrite length_app. simpl.
          replace (length logc + 1 + i) with (length logc + S i) by lia.
          rewrite <- Nat.add_succ_r. apply Hans. lia.
        * intros i Hi. simpl. rewrite <- Nat.add_succ_r. apply Hfull. lia.
        * rewrite length_app. simpl.
          replace (length logc + 1 + k) with (length logc + S k) by lia.
          now rewrite <- Nat.add_succ_r.
      + specialize (Hans 0 (Nat.lt_0_succ _)). now rewrite !Nat.add_0_r in Hans. }
  now apply (Hgen k fuel [] 0 log).
Qed.

(** X7: as long as every page is an array of at least [limit] collections
    the loop of [listCollections] goes on: whatever number of rounds it is
    given, it has asked for that many pages and has not returned. *)
Theorem listCollections_goes_on_while_pages_full (pages : nat -> Value) log :
  (forall i, answers net (length log + i) (listRequest api i) (pages i)) ->
  (forall i, lastPage (pages i) = false) ->
  forall fuel,
    listCollections JSON_stringify net api fuel log =
      (log ++ List.map (listRequest api) (seq 0 fuel), OutOfFuel).
Proof.
  intros Hans Hfull fuel. unfold listCollections.
  change 1 with (1 + limit * 0) at 1.
  assert (Hgen : forall fuel acc a logc,
    (forall i, answers net (length logc + i) (listRequest api (a + i)) (pages (a + i))) ->
    listCollectionsLoop JSON_stringify net api fuel acc (1 + limit * a) logc =
      (logc ++ List.map (listRequest api) (seq a fuel), OutOfFuel)).
  { clear - Hfull. induction fuel as [|fuel IH]; intros acc a logc Hans.
    - simpl. now rewrite app_nil_r.
    - rewrite (listCollectionsLoop_step _ net api fuel acc a logc (pages a)).
      + rewrite Hfull, (IH _ (S a)).
        * cbn [seq List.map]. now rewrite <- !app_assoc.
        * intros i. rewrite length_app. simpl.
          replace (length logc + 1 + i) with (length logc + S i) by lia.
          rewrite <- Nat.add_succ_r. apply Hans.
      + specialize (Hans 0). now rewrite !Nat.add_0_r in Hans. }
  now apply (Hgen fuel [] 0 log).
Qed.

End MoreClientProperties.

Lemma listCollections_fails_on_bad_page_witness :
  listCollections sampleStringify failingSecondPageNet sampleApi 5 []
  = ([listRequest sampleApi 0; listRequest sampleApi 1],
     Throws (OutlineApiError "Error (Status: 500) - boom" 500)).
Proof.
  apply (listCollections_fails_on_bad_page sampleStringify failingSecondPageNet sampleApi
           (fun _ => Val (JArr (repeat (JStr "c") limit))) 1 [] serverError).
  - intros i Hi. destruct i as [|i]; [|lia].
    eexists _, _. split; [reflexivity|]. split; [reflexivity|]. split; reflexivity.
  - intros i _. reflexivity.
  - reflexivity.
  - reflexivity.
  - lia.
Defined.

Lemma listCollections_goes_on_while_pages_full_witness :
  listCollections sampleStringify endlessNet sampleApi 3 []
  = ([listRequest sampleApi 0; listRequest sampleApi 1; listRequest sampleApi 2], OutOfFuel).
Proof.
  apply (listCollections_goes_on_while_pages_full sampleStringify endlessNet sampleApi
           (fun _ => Val (JArr (repeat (JStr "c") limit))) []).
  - intros i. eexists _, _. split; [reflexivity|]. split; [reflexivity|]. split; reflexivity.
  - intros i. reflexivity.
Defined.

(** ** Blank parent ids *)

Lemma trimStart_empty s : trimStart s = "" <-> allWhite s = true.
Proof.
  unfold allWhite. induction s as [|c s IH]; simpl; [easy|].
  destruct (isWhiteSpace c); simpl; [exact IH|]. split; discriminate.
Qed.

Lemma trimStart_head s c rest : trimStart s = String c rest -> isWhiteSpace c = false.
Proof.
  induction s as [|c' s IH]; simpl; [discriminate|].
  destruct (isWhiteSpace c') eqn:Hc; [exact IH|]. now intros [= <- _].
Qed.

Lemma revString_empty s : revString s = "" <-> s = "".
Proof.
  unfold revString. split; [|intros ->; reflexivity].
  intros H. apply (f_equal list_ascii_of_string) in H.
  rewrite list_ascii_of_string_of_list_ascii in H. simpl in H.
  apply (f_equal (@rev ascii)) in H. rewrite rev_involutive in H. simpl in H.
  now destruct s.
Qed.

Lemma allWhite_revString s : allWhite (revString s) = allWhite s.
Proof.
  unfold allWhite, revString. rewrite list_ascii_of_string_of_list_ascii.
  generalize (list_ascii_of_string s). intros l.
  induction l as [|c l IH]; [reflexivity|].
  simpl. rewrite forallb_app, IH. simpl. rewrite andb_true_r. apply andb_comm.
Qed.

Lemma trim_empty s : trim s = "" <-> allWhite s = true.
Proof.
  unfold trim. rewrite revString_empty, trimStart_empty, allWhite_revString. split.
  - intros Hall. destruct (trimStart s) as [|c rest] eqn:Ht.
    + now apply trimStart_empty.
    + apply trimStart_head in Ht. unfold allWhite in Hall. simpl in Hall.
      now rewrite Ht in Hall.
  - intros Hall. apply trimStart_empty in Hall. now rewrite Hall.
Qed.

Lemma given_not_allWhite s : given s = negb (allWhite s).
Proof.
  unfold given. destruct (allWhite s) eqn:Hall; simpl.
  - apply trim_empty in Hall. rewrite Hall. simpl. apply andb_false_r.
  - destruct s as [|c s]; [discriminate Hall|]. simpl.
    destruct (String.eqb_spec (trim (String c s)) "") as [Ht|Ht]; [|reflexivity].
    apply trim_empty in Ht. congruence.
Qed.

Lemma isWhiteSpace_codes c :
  isWhiteSpace c = bool_decide (nat_of_ascii c ∈ [9; 10; 11; 12; 13; 32; 160]).
Proof.
  destruct c as [[] [] [] [] [] [] [] []]; reflexivity.
Qed.

(** X8: the body of a move or create request names a parent exactly when
    the parent id passed has a character that is not white space, the white
    space being that of [trim]: tab, line feed, vertical tab, form feed,
    carriage return, space and no-break space among the code units below
    256. An empty or blank parent id is left out, so that the document goes
    to the root of the collection. *)
Theorem blank_parent_left_out documentId destCollectionId parentId ttl txt publish
    JSON_stringify net api log :
  movePayload documentId destCollectionId parentId
  = DocumentsMove documentId destCollectionId
      (if allWhite parentId then None else Some parentId)
  /\ fst (createDocument JSON_stringify net api ttl txt destCollectionId publish parentId log)
     = log ++ [post api "documents.create"
                 (DocumentsCreate ttl txt destCollectionId publish
                    (if allWhite parentId then None else Some parentId))]
  /\ (allWhite parentId = true <->
      forall c, c ∈ list_ascii_of_string parentId ->
        nat_of_ascii c ∈ [9; 10; 11; 12; 13; 32; 160]).
Proof.
  split; [|split]; cycle 2.
  { unfold allWhite. rewrite forallb_forall. split.
    - intros Hall c Hc. apply list_elem_of_In in Hc. specialize (Hall c Hc).
      rewrite isWhiteSpace_codes in Hall. now apply bool_decide_eq_true_1 in Hall.
    - intros Hall c Hc. rewrite isWhiteSpace_codes. apply bool_decide_eq_true_2.
      now apply Hall, list_elem_of_In. }
  - unfold movePayload. rewrite given_not_allWhite. now destruct (allWhite parentId).
  - unfold createDocument, bind, awaitRetryFetch, defined, throwUnlessOk, awaitJson,
      liftC, ret, throw.
    rewrite given_not_allWhite.
    destruct (snd (retryFetch _ _ _)) as [r| |e]; simpl;
      try (now destruct (allWhite parentId)).
    destruct (ok r); simpl; [destruct (json r)|]; simpl; now destruct (allWhite parentId).
Qed.

(** ** manager.js: flattening *)

Lemma flattenApiDoc_ids doc : forall p, List.map flat_id (flattenApiDoc p doc) = docIds doc.
Proof.
  induction doc as [i ttl parent|i ttl parent kids IH] using Doc_nested_ind;
    intros p; simpl; f_equal.
  rewrite map_flat_map. apply (flat_map_Forall_eq _ _ _ _ IH). auto.
Qed.

Lemma flattenApiDoc_parents doc : forall anc,
  List.map (fun f => (flat_id f, flat_title f, flat_parentDocumentId f))
    (flattenApiDoc (head anc) doc)
  = List.map (fun e => (id (snd e), title (snd e), flatParent (head (fst e)) (snd e)))
      (preorder anc doc).
Proof.
  induction doc as [i ttl parent|i ttl parent kids IH] using Doc_nested_ind;
    intros anc; simpl; f_equal.
  rewrite !map_flat_map. apply (flat_map_Forall_eq _ _ _ _ IH).
  intros kid Hkid. apply (Hkid (i :: anc)).
Qed.

(** X9: [flattenApiDocs] lists every document of the nested response once,
    in preorder, with its id and title; a listed document keeps its own
    [parentDocumentId] when that is set, and otherwise gets the id of the
    document it was nested in, when that id is set. *)
Theorem flattenApiDocs_preorder docs :
  List.map flat_id (flattenApiDocs docs None) = flat_map docIds docs
  /\ List.map (fun f => (flat_id f, flat_title f, flat_parentDocumentId f))
       (flattenApiDocs docs None)
     = List.map (fun e => (id (snd e), title (snd e), flatParent (head (fst e)) (snd e)))
         (flat_map (preorder []) docs).
Proof.
  unfold flattenApiDocs. split.
  - rewrite map_flat_map. apply (flat_map_Forall_eq (fun _ => True)).
    + now apply Forall_forall.
    + intros doc _. apply flattenApiDoc_ids.
  - rewrite !map_flat_map. apply (flat_map_Forall_eq (fun _ => True)).
    + now apply Forall_forall.
    + intros doc _. apply (flattenApiDoc_parents doc []).
Qed.

Lemma flattenTreeNode_depth node : forall indent anc,
  List.map (fun e => (entry_id e, entry_indent e)) (flattenTreeNode (indent + length anc) node)
  = List.map (fun e => (id (snd e), indent + length (fst e))) (preorder anc node).
Proof.
  induction node as [i ttl parent|i ttl parent kids IH] using Doc_nested_ind;
    intros indent anc; simpl; f_equal.
  rewrite !map_flat_map. apply (flat_map_Forall_eq _ _ _ _ IH).
  intros kid Hkid. rewrite <- (Hkid indent (i :: anc)). simpl.
  now replace (indent + length anc + 1) with (indent + S (length anc)) by lia.
Qed.

Lemma flattenTreeNode_named node : forall indent,
  Forall (fun e => entry_name e <> "") (flattenTreeNode indent node).
Proof.
  assert (Hname : forall ttl, orElse (Some ttl) "(Untitled)" <> "").
  { intros ttl. unfold orElse. simpl. destruct (String.eqb_spec ttl ""); simpl; easy. }
  induction node as [i ttl parent|i ttl parent kids IH] using Doc_nested_ind;
    intros indent; simpl.
  - constructor; [apply Hname|constructor].
  - constructor; [apply Hname|].
    induction IH as [|kid rest Hkid _ IHrest]; simpl; [constructor|].
    apply Forall_app. auto.
Qed.

(** X10: [flattenTree] lists the documents of the tree in preorder, each
    with the starting indent plus its depth as [indent], and with a name
    that is never empty (an empty title reads "(Untitled)"). *)
Theorem flattenTree_preorder_depth tree indent :
  List.map (fun e => (entry_id e, entry_indent e)) (flattenTree tree indent)
  = List.map (fun e => (id (snd e), indent + length (fst e))) (flat_map (preorder []) tree)
  /\ Forall (fun e => entry_name e <> "") (flattenTree tree indent).
Proof.
  unfold flattenTree. split.
  - rewrite !map_flat_map. apply (flat_map_Forall_eq (fun _ => True)).
    + now apply Forall_forall.
    + intros node _. rewrite <- (flattenTreeNode_depth node indent []). simpl.
      now rewrite Nat.add_0_r.
  - induction tree as [|node rest IH]; simpl; [constructor|].
    apply Forall_app. split; [apply flattenTreeNode_named|exact IH].
Qed.

(** ** buildTree: roots, children and the dictionary *)

Lemma kidsOf_spec docs b q :
  buildTree docs = Returns b ->
  kidsOf b q =
    if decide (q < length docs)
    then positionsWhere (filedUnder docs (indexDocs 0 docs ∅) (Some q)) 0 docs
    else [].
Proof.
  intros Hb. unfold kidsOf. rewrite (buildTree_heap _ _ _ Hb).
  destruct (decide (q < length docs)) as [Hq|Hq].
  - apply lookup_lt_is_Some_2 in Hq as [d ->]. reflexivity.
  - rewrite lookup_ge_None_2 by lia. reflexivity.
Qed.

(** Where the document at position [j] is after a run that returned. *)
Lemma buildTree_filed docs b j d :
  buildTree docs = Returns b -> docs !! j = Some d ->
  (j ∈ roots b <->
   (if truthy (flat_parentDocumentId d)
    then indexDocs 0 docs ∅ !! default "" (flat_parentDocumentId d)
    else None) = None)
  /\ forall q, j ∈ kidsOf b q <->
       q < length docs
       /\ (if truthy (flat_parentDocumentId d)
           then indexDocs 0 docs ∅ !! default "" (flat_parentDocumentId d)
           else None) = Some q.
Proof.
  intros Hb Hj.
  assert (Hfine : namesInherited docs d = false).
  { pose proof (buildTree_returned _ _ Hb) as Hall. rewrite Forall_forall in Hall.
    apply Hall. eapply list_elem_of_lookup_2, Hj. }
  split.
  - rewrite (buildTree_roots _ _ Hb), elem_of_positionsWhere, Nat.sub_0_r. split.
    + intros (d' & Hd' & _ & Hf). rewrite Hj in Hd'. injection Hd' as <-.
      rewrite filedUnder_indexed in Hf by exact Hfine. now apply bool_decide_eq_true_1 in Hf.
    + intros Hslot. exists d. split; [exact Hj|]. split; [lia|].
      rewrite filedUnder_indexed by exact Hfine. now apply bool_decide_eq_true_2.
  - intros q. rewrite (kidsOf_spec _ _ _ Hb). destruct (decide (q < length docs)) as [Hq|Hq].
    + rewrite elem_of_positionsWhere, Nat.sub_0_r. split.
      * intros (d' & Hd' & _ & Hf). rewrite Hj in Hd'. injection Hd' as <-.
        split; [exact Hq|]. rewrite filedUnder_indexed in Hf by exact Hfine.
        now apply bool_decide_eq_true_1 in Hf.
      * intros [_ Hslot]. exists d. split; [exact Hj|]. split; [lia|].
        rewrite filedUnder_indexed by exact Hfine. now apply bool_decide_eq_true_2.
    + split; [intros H; inversion H|intros [Hlt _]; contradiction].
Qed.

Lemma positionsWhere_NoDup f docs : forall i, NoDup (positionsWhere f i docs).
Proof.
  induction docs as [|d docs IH]; intros i; simpl; [constructor|].
  destruct (f d); simpl; [|apply IH]. constructor; [|apply IH].
  intros Hin. apply elem_of_positionsWhere in Hin as (_ & _ & Hle & _). lia.
Qed.




(** X12: when [buildTree] returns, it has placed every listed document
    exactly once: among the roots and in no [children] array, or in the
    [children] array of one listed document and nowhere else; no array
    holds a document twice. *)
Theorem buildTree_places_once docs b j d :
  buildTree docs = Returns b ->
  docs !! j = Some d ->
  NoDup (roots b)
  /\ (forall q, NoDup (kidsOf b q))
  /\ ((j ∈ roots b /\ forall q, j ∉ kidsOf b q)
      \/ ((j ∉ roots b)
          /\ exists q, q < length docs
               /\ j ∈ kidsOf b q
               /\ forall q', q' <> q -> j ∉ kidsOf b q')).
Proof.
  intros Hb Hj. split; [rewrite (buildTree_roots _ _ Hb); apply positionsWhere_NoDup|].
  split.
  { intros q. rewrite (kidsOf_spec _ _ _ Hb).
    destruct (decide _); [apply positionsWhere_NoDup|constructor]. }
  destruct (buildTree_filed docs b j d Hb Hj) as [Hroot Hkid].
  destruct (if truthy (flat_parentDocumentId d)
            then indexDocs 0 docs ∅ !! default "" (flat_parentDocumentId d)
            else None) as [q|] eqn:Hslot.
  - right. split; [rewrite Hroot; discriminate|].
    assert (Hq : q < length docs).
    { destruct (truthy _); [|discriminate].
      apply indexDocs_Some in Hslot as [Hm|(d' & Hd' & _ & _)];
        [now rewrite lookup_empty in Hm|].
      rewrite Nat.sub_0_r in Hd'. now apply lookup_lt_Some in Hd'. }
    exists q. split; [exact Hq|]. split; [now apply Hkid|].
    intros q' Hne Hin. apply Hkid in Hin as [_ Hin]. congruence.
  - left. split; [now apply Hroot|]. intros q Hin. apply Hkid in Hin as [_ Hin]. discriminate.
Qed.

Lemma buildTree_places_once_witness :
  exists b, buildTree orphanDocs = Returns b
    /\ NoDup (roots b)
    /\ (forall q, NoDup (kidsOf b q))
    /\ ((2 ∈ roots b /\ forall q, 2 ∉ kidsOf b q)
        \/ ((2 ∉ roots b)
            /\ exists q, q < length orphanDocs
                 /\ 2 ∈ kidsOf b q
                 /\ forall q', q' <> q -> 2 ∉ kidsOf b q')).
Proof.
  eexists. split; [reflexivity|].
  apply (buildTree_places_once orphanDocs _ 2 (mkFlatDoc "c" "child" (Some "a")));
    reflexivity.
Defined.

(** X13: when several listed documents have the same id, the dictionary
    holds the last of them: documents that name the id as their parent
    become children of the last one, and the earlier ones get no
    children. *)
Theorem buildTree_last_duplicate_wins docs b k d :
  buildTree docs = Returns b ->
  docs !! k = Some d ->
  (forall k' d', k < k' -> docs !! k' = Some d' -> flat_id d' <> flat_id d) ->
  documentMap b !! flat_id d = Some k
  /\ (forall j c, docs !! j = Some c -> flat_parentDocumentId c = Some (flat_id d) ->
      flat_id d <> "" -> j ∈ kidsOf b k)
  /\ (forall k0 d0, k0 < k -> docs !! k0 = Some d0 -> flat_id d0 = flat_id d ->
      kidsOf b k0 = []).
Proof.
  intros Hb Hk Hlater.
  assert (Hmap : indexDocs 0 docs ∅ !! flat_id d = Some k)
    by (now rewrite (indexDocs_last docs 0 ∅ k d Hk Hlater)).
  split; [now rewrite (buildTree_documentMap _ _ Hb)|]. split.
  - intros j c Hj Hp Hne.
    apply (buildTree_filed docs b j c Hb Hj). split; [now apply lookup_lt_Some in Hk|].
    rewrite Hp. simpl. apply String.eqb_neq in Hne. now rewrite Hne.
  - intros k0 d0 Hlt Hk0 Hid.
    destruct (kidsOf b k0) as [|j rest] eqn:Hkids; [reflexivity|]. exfalso.
    assert (Hin : j ∈ kidsOf b k0) by (rewrite Hkids; left).
    assert (Hj : j < length docs).
    { rewrite (kidsOf_spec _ _ _ Hb) in Hin. destruct (decide _); [|inversion Hin].
      apply elem_of_positionsWhere in Hin as (c & Hc & _ & _).
      rewrite Nat.sub_0_r in Hc. now apply lookup_lt_Some in Hc. }
    apply lookup_lt_is_Some_2 in Hj as [c Hj].
    destruct (proj1 (proj2 (buildTree_filed docs b j c Hb Hj) k0) Hin) as [_ Hslot].
    destruct (truthy (flat_parentDocumentId c)); [|discriminate].
    pose proof (indexDocs_lookup docs (default "" (flat_parentDocumentId c))) as Hlook.
    rewrite Hslot in Hlook. destruct Hlook as (d' & Hd' & Hid' & Hlast).
    rewrite Hk0 in Hd'. injection Hd' as <-.
    apply (Hlast k d Hlt Hk). congruence.
Qed.

Lemma buildTree_last_duplicate_wins_witness :
  exists b, buildTree duplicateDocs = Returns b
    /\ documentMap b !! "x" = Some 2
    /\ 3 ∈ kidsOf b 2
    /\ kidsOf b 1 = [].
Proof.
  eexists. split; [reflexivity|].
  destruct (buildTree_last_duplicate_wins duplicateDocs _ 2 (mkFlatDoc "x" "second" (Some "r"))
              eq_refl)
    as (Hmap & Hkid & Hfirst).
  - reflexivity.
  - intros k' d' Hlt Hk'. destruct k' as [|[|[|[|k']]]]; try lia; [|discriminate Hk'].
    injection Hk' as <-. discriminate.
  - split; [exact Hmap|]. split.
    + apply (Hkid 3 (mkFlatDoc "k" "kid" (Some "x"))); [reflexivity|reflexivity|discriminate].
    + apply (Hfirst 1 (mkFlatDoc "x" "first" (Some "r"))); [lia|reflexivity|reflexivity].
Defined.

(** X14: a document that names its own id as its parent is not a root: it
    is filed as its own child, and reading the tree below it does not
    come to an end. *)
Theorem buildTree_self_parent docs b j d :
  buildTree docs = Returns b ->
  docs !! j = Some d ->
  flat_parentDocumentId d = Some (flat_id d) ->
  flat_id d <> "" ->
  (forall k' d', j < k' -> docs !! k' = Some d' -> flat_id d' <> flat_id d) ->
  (j ∉ roots b)
  /\ j ∈ kidsOf b j
  /\ forall fuel, readDoc fuel (heap b) j = None.
Proof.
  intros Hb Hj Hself Hne Hlater.
  destruct (buildTree_filed docs b j d Hb Hj) as [Hroot Hkids].
  assert (Hslot : (if truthy (flat_parentDocumentId d)
                   then indexDocs 0 docs ∅ !! default "" (flat_parentDocumentId d)
                   else None) = Some j).
  { rewrite Hself. simpl. apply String.eqb_neq in Hne. rewrite Hne. simpl.
    now rewrite (indexDocs_last docs 0 ∅ j d Hj Hlater). }
  assert (Hkid : j ∈ kidsOf b j).
  { apply Hkids. split; [now apply lookup_lt_Some in Hj|exact Hslot]. }
  split; [|split; [exact Hkid|]].
  - intros Hin. apply Hroot in Hin. congruence.
  - induction fuel as [|fuel IH]; [reflexivity|].
    cbn [readDoc]. unfold kidsOf in Hkid.
    destruct (heap b !! j) as [node|]; [|reflexivity].
    simpl in *. rewrite mapM_None_2; [reflexivity|].
    apply Exists_exists. exists j. split; [exact Hkid|exact IH].
Qed.

Lemma buildTree_self_parent_witness :
  exists b, buildTree selfParentDocs = Returns b
    /\ (1 ∉ roots b)
    /\ 1 ∈ kidsOf b 1
    /\ forall fuel, readDoc fuel (heap b) 1 = None.
Proof.
  eexists. split; [reflexivity|].
  apply (buildTree_self_parent selfParentDocs _ 1 (mkFlatDoc "s" "loop" (Some "s"))).
  - reflexivity.
  - reflexivity.
  - reflexivity.
  - discriminate.
  - intros k' d' Hlt Hk'. destruct k' as [|[|k']]; try lia. discriminate Hk'.
Defined.

(** ** From the response to the folder dropdown *)

Lemma docIds_nested linked t : forall p, docIds (treeToNestedDocs linked p t) = treeIds t.
Proof.
  induction t as [i ttl kids IH] using Tree_nested_ind. intros p. simpl. f_equal.
  rewrite flat_map_map. apply (flat_map_Forall_eq _ _ _ _ IH). auto.
Qed.

Lemma flattenTreeNode_ids node : forall indent,
  List.map entry_id (flattenTreeNode indent node) = docIds node.
Proof.
  induction node as [i ttl parent|i ttl parent kids IH] using Doc_nested_ind;
    intros indent; simpl; f_equal.
  rewrite map_flat_map. apply (flat_map_Forall_eq _ _ _ _ IH). auto.
Qed.

Lemma flattenTree_ids tree indent :
  List.map entry_id (flattenTree tree indent) = flat_map docIds tree.
Proof.
  unfold flattenTree. rewrite map_flat_map. apply (flat_map_Forall_eq (fun _ => True)).
  - now apply Forall_forall.
  - intros node _. apply flattenTreeNode_ids.
Qed.

(** X15: for a response that nests every document in the [children] of
    its parent, the nested documents all with or all without their
    [parentDocumentId], and whose ids are non-empty and pairwise distinct,
    the folder dropdown filled from it (flatten, build, flatten the tree,
    populate with indentation) offers "Collection Root" with the empty
    value first and then every document of the response, in the order of
    the flattened response. *)
Theorem folder_dropdown_lists_response linked forest :
  NoDup (flat_map treeIds forest) ->
  Forall (fun x => x <> "") (flat_map treeIds forest) ->
  exists b tree,
    buildTree (flattenApiDocs (List.map (treeToNestedDocs linked None) forest) None)
      = Returns b
    /\ readForest b = Some tree
    /\ head (populateDropdown (flattenTree tree 0) true) = Some (mkOption "" "Collection Root")
    /\ List.map option_value (populateDropdown (flattenTree tree 0) true)
       = "" :: List.map flat_id
                 (flattenApiDocs (List.map (treeToNestedDocs linked None) forest) None).
Proof.
  intros Hnd Hids.
  destruct (readForest_flattened linked forest Hnd Hids) as [Hflat (b & Hb & Hread)].
  exists b, (List.map (treeToNestedDocs true None) forest).
  rewrite Hflat. split; [exact Hb|]. split; [exact Hread|]. split; [reflexivity|].
  unfold populateDropdown. simpl. f_equal.
  rewrite List.map_map. simpl.
  change (List.map (fun x => entry_id x) ?l) with (List.map entry_id l).
  rewrite flattenTree_ids, preorderForest_ids, flat_map_map.
  apply (flat_map_Forall_eq (fun _ => True)); [now apply Forall_forall|].
  intros t _. apply docIds_nested.
Qed.

Lemma folder_dropdown_lists_response_witness :
  exists b tree,
    buildTree (flattenApiDocs (List.map (treeToNestedDocs false None) sampleForest) None)
      = Returns b
    /\ readForest b = Some tree
    /\ head (populateDropdown (flattenTree tree 0) true) = Some (mkOption "" "Collection Root")
    /\ List.map option_value (populateDropdown (flattenTree tree 0) true)
       = "" :: List.map flat_id
                 (flattenApiDocs (List.map (treeToNestedDocs false None) sampleForest) None).
Proof.
  apply (folder_dropdown_lists_response false sampleForest).
  - apply (bool_decide_unpack _). vm_compute. exact I.
  - apply (bool_decide_unpack _). vm_compute. exact I.
Defined.

(** ** Selection: what is moved *)

Lemma filterTopLevelSelectedNode_sublist selectedIds node :
  flat_map docIds (filterTopLevelSelectedNode selectedIds node) `sublist_of` docIds node.
Proof.
  induction node as [i ttl parent|i ttl parent kids IH] using Doc_nested_ind; simpl;
    destruct (includes selectedIds i); simpl; try rewrite app_nil_r;
    try reflexivity; try apply sublist_nil_l.
  apply sublist_cons.
  induction IH as [|kid rest Hkid _ IHrest]; simpl; [constructor|].
  rewrite flat_map_app. now apply sublist_app.
Qed.

Lemma filterTopLevelSelectedNode_selected selectedIds node :
  Forall (fun d => includes selectedIds (id d) = true)
    (filterTopLevelSelectedNode selectedIds node).
Proof.
  induction node as [i ttl parent|i ttl parent kids IH] using Doc_nested_ind; simpl;
    destruct (includes selectedIds i) eqn:Hsel; simpl;
    try (constructor; [exact Hsel|constructor]); try constructor.
  induction IH as [|kid rest Hkid _ IHrest]; simpl; [constructor|].
  apply Forall_app. auto.
Qed.

Lemma filterTopLevelSelectedNode_covers selectedIds node x :
  x ∈ docIds node -> includes selectedIds x = true ->
  x ∈ flat_map docIds (filterTopLevelSelectedNode selectedIds node).
Proof.
  induction node as [i ttl parent|i ttl parent kids IH] using Doc_nested_ind; simpl;
    intros Hx Hsel; destruct (includes selectedIds i) eqn:Hi; simpl;
    try (rewrite ?app_nil_r; exact Hx).
  - apply elem_of_cons in Hx as [->|Hx]; [congruence|inversion Hx].
  - apply elem_of_cons in Hx as [->|Hx]; [congruence|].
    apply elem_of_flat_map in Hx as (kid & Hkid & Hx).
    rewrite Forall_forall in IH.
    apply elem_of_flat_map.
    specialize (IH kid Hkid Hx Hsel).
    apply elem_of_flat_map in IH as (d & Hd & Hxd).
    exists d. split; [|exact Hxd]. apply elem_of_flat_map. eauto.
Qed.

Lemma filterTopLevelSelected_sublist tree selectedIds :
  flat_map docIds (filterTopLevelSelected tree selectedIds) `sublist_of` flat_map docIds tree.
Proof.
  unfold filterTopLevelSelected. induction tree as [|node rest IH]; simpl; [constructor|].
  rewrite flat_map_app. apply sublist_app; [apply filterTopLevelSelectedNode_sublist|exact IH].
Qed.

Lemma filterTopLevelSelected_covers tree selectedIds x :
  x ∈ flat_map docIds tree -> includes selectedIds x = true ->
  x ∈ flat_map docIds (filterTopLevelSelected tree selectedIds).
Proof.
  intros Hx Hsel. unfold filterTopLevelSelected.
  apply elem_of_flat_map in Hx as (node & Hnode & Hx).
  pose proof (filterTopLevelSelectedNode_covers selectedIds node x Hx Hsel) as Hcov.
  apply elem_of_flat_map in Hcov as (d & Hd & Hxd).
  apply elem_of_flat_map. exists d. split; [|exact Hxd].
  apply elem_of_flat_map. eauto.
Qed.

(** X16: every node [filterTopLevelSelected] returns is selected; the
    subtrees of the returned nodes are disjoint parts of the tree, in tree
    order, so that with distinct ids no document is in two of them; and
    every selected document of the tree is in one of them. *)
Theorem filterTopLevelSelected_partition tree selectedIds :
  Forall (fun d => includes selectedIds (id d) = true) (filterTopLevelSelected tree selectedIds)
  /\ flat_map docIds (filterTopLevelSelected tree selectedIds) `sublist_of` flat_map docIds tree
  /\ (NoDup (flat_map docIds tree) ->
      NoDup (flat_map docIds (filterTopLevelSelected tree selectedIds)))
  /\ (forall x, x ∈ flat_map docIds tree -> includes selectedIds x = true ->
      x ∈ flat_map docIds (filterTopLevelSelected tree selectedIds)).
Proof.
  pose proof (filterTopLevelSelected_sublist tree selectedIds) as Hsub.
  split; [|split; [exact Hsub|split]].
  - clear Hsub. unfold filterTopLevelSelected.
    induction tree as [|node rest IH]; simpl; [constructor|].
    apply Forall_app. split; [apply filterTopLevelSelectedNode_selected|exact IH].
  - intros Hnd. eapply sublist_NoDup; eassumption.
  - apply filterTopLevelSelected_covers.
Qed.

(** ** Relocation on any remote side *)

Lemma moveRequests_ids api doc dest : forall p,
  List.map movedId (moveRequests api doc dest p) = List.map Some (docIds doc).
Proof.
  induction doc as [i ttl parent|i ttl parent kids IH] using Doc_nested_ind;
    intros p; simpl; f_equal.
  rewrite !map_flat_map. apply (flat_map_Forall_eq _ _ _ _ IH). auto.
Qed.

Section RelocationAnyNet.

Variable JSON_stringify : Json -> string.
Variable net : Network.
Variable api : OutlineAPI.

Lemma moveDocument_sends documentId destCollectionId destParentId log :
  exists c,
    moveDocument JSON_stringify net api documentId destCollectionId destParentId log =
      (log ++ [post api "documents.move" (movePayload documentId destCollectionId destParentId)], c)
    /\ c <> OutOfFuel.
Proof.
  unfold moveDocument, bind, awaitRetryFetch, defined, throwUnlessOk, awaitJson, liftC, ret, throw.
  destruct (snd (retryFetch _ _ _)) as [r| |e]; simpl;
    [|eexists; split; [reflexivity|easy]..].
  destruct (ok r); simpl; [|eexists; split; [reflexivity|easy]].
  destruct (json r) as [d|]; simpl; [|eexists; split; [reflexivity|easy]].
  eexists. split; [reflexivity|]. destruct d as [| | | | |fields]; simpl; easy.
Qed.

Lemma moveDocumentRecursively_sends doc :
  forall destCollectionId destParentId log,
  exists sent,
    fst (moveDocumentRecursively JSON_stringify net api doc destCollectionId destParentId log)
      = log ++ sent
    /\ sent `prefix_of` moveRequests api doc destCollectionId destParentId
    /\ sent <> []
    /\ (snd (moveDocumentRecursively JSON_stringify net api doc destCollectionId destParentId log)
          = Returns tt ->
        sent = moveRequests api doc destCollectionId destParentId)
    /\ snd (moveDocumentRecursively JSON_stringify net api doc destCollectionId destParentId log)
       <> OutOfFuel.
Proof.
  induction doc as [i ttl parent|i ttl parent kids IH] using Doc_nested_ind;
    intros dest destParent log;
    destruct (moveDocument_sends i dest destParent log) as (c & Hmove & Hc);
    match goal with
    | |- context [moveDocumentRecursively ?s ?n ?a ?d ?x ?p ?l] =>
        remember (moveDocumentRecursively s n a d x p l) as run eqn:Hrun
    end;
    cbn [moveDocumentRecursively id children] in Hrun;
    unfold bind at 1 in Hrun; rewrite Hmove in Hrun;
    cbn [moveRequests id children];
    set (first := post api "documents.move" (movePayload i dest destParent)) in *.
  - exists [first].
    destruct c as [v|e|]; [| |contradiction]; subst run; cbn [fst snd ret];
      (split; [reflexivity|]); (split; [reflexivity|]); (split; [discriminate|]);
      (split; [intros _; reflexivity|discriminate]).
  - destruct c as [v|e|]; [| |contradiction].
    + assert (Hloop : forall (k : list Doc -> Api unit) log1,
        (forall rest, k rest =
           match rest with
           | [] => ret tt
           | child :: rest' =>
               moveDocumentRecursively JSON_stringify net api child dest i;;; k rest'
           end) ->
        exists sent,
          fst (k kids log1) = log1 ++ sent
          /\ sent `prefix_of` flat_map (fun child => moveRequests api child dest i) kids
          /\ (snd (k kids log1) = Returns tt ->
              sent = flat_map (fun child => moveRequests api child dest i) kids)
          /\ snd (k kids log1) <> OutOfFuel).
      { clear Hmove Hrun. intros k log1 Hk. revert log1.
        induction IH as [|child rest Hchild _ IHrest]; intros log1; rewrite Hk.
        - exists []. cbn [fst snd ret flat_map]. rewrite app_nil_r.
          repeat split; [reflexivity|discriminate].
        - destruct (Hchild dest i log1) as (sent1 & Hfst & Hpre & _ & Hall & Hfuel).
          unfold bind.
          destruct (moveDocumentRecursively JSON_stringify net api child dest i log1)
            as [log2 [[]|e|]] eqn:Hchildrun; cbn [fst snd] in *; [| |contradiction].
          + subst log2. pose proof (Hall eq_refl) as Hsent1. subst sent1.
            destruct (IHrest (log1 ++ moveRequests api child dest i))
              as (sent2 & Hfst2 & Hpre2 & Hall2 & Hfuel2).
            exists (moveRequests api child dest i ++ sent2). cbn [flat_map].
            rewrite Hfst2, <- app_assoc. split; [reflexivity|].
            split; [now apply prefix_app|].
            split; [|exact Hfuel2]. intros Hret. now rewrite (Hall2 Hret).
          + exists sent1. cbn [flat_map]. split; [exact Hfst|].
            split; [now apply prefix_app_r|]. split; discriminate. }
      match type of Hrun with
      | _ = ?k kids ?l => destruct (Hloop k l) as (sent & Hfst & Hpre & Hall & Hfuel);
                          [intros [|child rest']; reflexivity|]
      end.
      exists (first :: sent). subst run. rewrite Hfst, <- app_assoc.
      split; [reflexivity|]. split; [now apply prefix_cons|]. split; [discriminate|].
      split; [|exact Hfuel]. intros Hret. now rewrite (Hall Hret).
    + exists [first]. subst run. cbn [fst snd]. split; [reflexivity|].
      split; [apply prefix_cons, prefix_nil|]. split; [discriminate|]. split; discriminate.
Qed.

(** X17: whatever the remote side answers, [moveDocumentRecursively] sends
    the move of the document itself and then only move requests of its
    subtree, in preorder and without a gap: what it has sent is a
    beginning of the full list, and the full list when it returns. *)
Theorem moveDocumentRecursively_sends_in_order doc destCollectionId destParentId log :
  exists sent,
    fst (moveDocumentRecursively JSON_stringify net api doc destCollectionId destParentId log)
      = log ++ post api "documents.move" (movePayload (id doc) destCollectionId destParentId)
               :: sent
    /\ sent `prefix_of`
         match children doc with
         | Some kids => flat_map (fun child => moveRequests api child destCollectionId (id doc)) kids
         | None => []
         end
    /\ (snd (moveDocumentRecursively JSON_stringify net api doc destCollectionId destParentId log)
          = Returns tt ->
        post api "documents.move" (movePayload (id doc) destCollectionId destParentId) :: sent
        = moveRequests api doc destCollectionId destParentId)
    /\ List.map movedId (moveRequests api doc destCollectionId destParentId)
       = List.map Some (docIds doc).
Proof.
  destruct (moveDocumentRecursively_sends doc destCollectionId destParentId log)
    as (sent & Hfst & Hpre & Hne & Hall & _).
  pose proof (moveRequests_ids api doc destCollectionId destParentId) as Hids.
  destruct doc as [i ttl parent kids]. cbn [moveRequests id children] in *.
  destruct sent as [|first sent]; [contradiction|].
  destruct Hpre as [tail Hpre]. injection Hpre as <- Hrest.
  exists sent. split; [exact Hfst|]. split; [now exists tail|].
  split; [exact Hall|exact Hids].
Qed.

Lemma moveDocumentRecursively_stops_at_failure_run doc destCollectionId destParentId log r :
  snd (retryFetch (net (length log)
         (post api "documents.move" (movePayload (id doc) destCollectionId destParentId)))
         MAX_RETRIES INITIAL_BACKOFF) = Resolved r ->
  ok r = false ->
  moveDocumentRecursively JSON_stringify net api doc destCollectionId destParentId log
  = (log ++ [post api "documents.move" (movePayload (id doc) destCollectionId destParentId)],
     Throws (OutlineApiError (parseApiError JSON_stringify r "Moving document failed")
               (status r))).
Proof.
  intros Hres Hok. destruct doc as [i ttl parent kids].
  cbn [moveDocumentRecursively id children] in *. unfold bind at 1, moveDocument.
  rewrite (checked_operation _ _ _ _ _ _ _ Hres), Hok. reflexivity.
Qed.

(** X18: when the move of a document is answered with a response that is
    not [ok], [moveDocumentRecursively] throws [OutlineApiError] with that
    status right away: no request for a child is sent. *)
Theorem moveDocumentRecursively_stops_at_failure doc destCollectionId destParentId log r :
  snd (retryFetch (net (length log)
         (post api "documents.move" (movePayload (id doc) destCollectionId destParentId)))
         MAX_RETRIES INITIAL_BACKOFF) = Resolved r ->
  ok r = false ->
  moveDocumentRecursively JSON_stringify net api doc destCollectionId destParentId log
  = (log ++ [post api "documents.move" (movePayload (id doc) destCollectionId destParentId)],
     Throws (OutlineApiError (parseApiError JSON_stringify r "Moving document failed")
               (status r))).
Proof. apply moveDocumentRecursively_stops_at_failure_run. Qed.

End RelocationAnyNet.

Lemma moveDocumentRecursively_stops_at_failure_witness :
  moveDocumentRecursively sampleStringify (constantNet serverError) sampleApi docB "X" "P" []
  = ([post sampleApi "documents.move" (DocumentsMove "B" "X" (Some "P"))],
     Throws (OutlineApiError "Error (Status: 500) - boom" 500)).
Proof.
  apply (moveDocumentRecursively_stops_at_failure sampleStringify (constantNet serverError)
           sampleApi docB "X" "P" [] serverError); reflexivity.
Defined.

(** ** manager.js: the Move button *)

Section MoveClickProperties.

Variable JSON_stringify : Json -> string.
Variable net : Network.
Variable readDocs : Value -> Completion (list Doc).

Lemma moveAll_sends api tops dest folder : forall log,
  exists sent,
    fst (moveAll JSON_stringify net api tops dest folder log) = log ++ sent
    /\ sent `prefix_of` flat_map (fun doc => moveRequests api doc dest folder) tops
    /\ (snd (moveAll JSON_stringify net api tops dest folder log) = Returns tt ->
        sent = flat_map (fun doc => moveRequests api doc dest folder) tops)
    /\ snd (moveAll JSON_stringify net api tops dest folder log) <> OutOfFuel.
Proof.
  induction tops as [|doc rest IH]; intros log.
  - exists []. cbn [moveAll fst snd ret flat_map]. rewrite app_nil_r.
    repeat split; [reflexivity|discriminate].
  - destruct (moveDocumentRecursively_sends JSON_stringify net api doc dest folder log)
      as (sent1 & Hfst & Hpre & _ & Hall & Hfuel).
    cbn [moveAll]. unfold bind.
    destruct (moveDocumentRecursively JSON_stringify net api doc dest folder log)
      as [log2 [[]|e|]] eqn:Hrun; cbn [fst snd] in *; [| |contradiction].
    + subst log2. pose proof (Hall eq_refl) as Hsent1. subst sent1.
      destruct (IH (log ++ moveRequests api doc dest folder))
        as (sent2 & Hfst2 & Hpre2 & Hall2 & Hfuel2).
      exists (moveRequests api doc dest folder ++ sent2). cbn [flat_map].
      rewrite Hfst2, <- app_assoc. split; [reflexivity|].
      split; [now apply prefix_app|].
      split; [|exact Hfuel2]. intros Hret. now rewrite (Hall2 Hret).
    + exists sent1. cbn [flat_map]. split; [exact Hfst|].
      split; [now apply prefix_app_r|]. split; discriminate.
Qed.

(** X19: with no box checked, or with no destination collection chosen,
    the handler sends no request: it shows one alert and leaves the tree as
    it is. *)
Theorem onMoveClick_nothing_to_do getOutlineAPI documentTreeData form log :
  checkedIds form = [] \/ destinationCollection form = "" ->
  exists message,
    onMoveClick JSON_stringify net readDocs getOutlineAPI documentTreeData form log
    = (log, [message], Returns None).
Proof.
  intros Hguard. unfold onMoveClick.
  destruct (checkedIds form) as [|x ids] eqn:Hids; simpl; [eauto|].
  destruct Hguard as [Hnone| ->]; [discriminate|]. simpl. eauto.
Qed.

(** X20: when the handler has shown "Documents moved successfully!", it
    has sent the move requests of every top-level selected document and
    its subtree, in order, each towards the chosen sub folder or, when none
    is chosen, the chosen folder, and after them one request for the
    documents of the source collection. With distinct ids in the tree no
    document was moved twice, and every checked document of the tree was
    moved. *)
Theorem onMoveClick_success api documentTreeData form log log' shown c :
  onMoveClick JSON_stringify net readDocs (Returns api) documentTreeData form log
    = (log', shown, c) ->
  "Documents moved successfully!" ∈ shown ->
  log' = log
         ++ flat_map (fun doc => moveRequests api doc (destinationCollection form)
                                   (destFolderIdOf form))
              (filterTopLevelSelected documentTreeData (checkedIds form))
         ++ [post api "collections.documents" (CollectionsDocuments (collectionSelect form) 1 1000)]
  /\ List.map movedId
       (flat_map (fun doc => moveRequests api doc (destinationCollection form)
                               (destFolderIdOf form))
          (filterTopLevelSelected documentTreeData (checkedIds form)))
     = List.map Some
         (flat_map docIds (filterTopLevelSelected documentTreeData (checkedIds form)))
  /\ (NoDup (flat_map docIds documentTreeData) ->
      NoDup (flat_map docIds (filterTopLevelSelected documentTreeData (checkedIds form))))
  /\ (forall x, x ∈ flat_map docIds documentTreeData -> includes (checkedIds form) x = true ->
      x ∈ flat_map docIds (filterTopLevelSelected documentTreeData (checkedIds form))).
Proof.
  intros Hrun Hshown. split; [|split; [|split]].
  - unfold onMoveClick in Hrun.
    destruct (Nat.eqb (length (checkedIds form)) 0).
    { injection Hrun as <- <- <-.
      apply list_elem_of_singleton in Hshown. discriminate Hshown. }
    destruct (negb (truthy (Some (destinationCollection form)))).
    { injection Hrun as <- <- <-.
      apply list_elem_of_singleton in Hshown. discriminate Hshown. }
    destruct (moveAll_sends api (filterTopLevelSelected documentTreeData (checkedIds form))
                (destinationCollection form) (destFolderIdOf form) log)
      as (sent & Hfst & _ & Hall & _).
    destruct (moveAll JSON_stringify net api _ _ _ log) as [log1 [[]|e|]];
      cbn [fst snd] in *;
      [|injection Hrun as <- <- <-; inversion Hshown..].
    rewrite (Hall eq_refl) in Hfst. subst log1.
    pose proof (getCollectionDocuments_sends JSON_stringify net api (collectionSelect form)
                (log ++ flat_map (fun doc => moveRequests api doc (destinationCollection form)
                                               (destFolderIdOf form))
                          (filterTopLevelSelected documentTreeData (checkedIds form))))
      as Hsent.
    destruct (getCollectionDocuments JSON_stringify net api _ _) as [log2 [docs|e|]];
      cbn [fst] in Hsent; subst log2.
    + destruct (readDocs docs) as [flatSource|e|];
        [destruct (buildTree (flattenApiDocs flatSource None))|..];
        injection Hrun as <- _ _; now rewrite <- app_assoc.
    + injection Hrun as <- _ _. now rewrite <- app_assoc.
    + injection Hrun as <- _ _. now rewrite <- app_assoc.
  - rewrite !map_flat_map. apply (flat_map_Forall_eq (fun _ => True)).
    + now apply Forall_forall.
    + intros doc _. apply moveRequests_ids.
  - intros Hnd. eapply sublist_NoDup; [exact Hnd|apply filterTopLevelSelected_sublist].
  - apply filterTopLevelSelected_covers.
Qed.

(** X21: when the move of the first top-level selected document is
    answered with a response that is not [ok], the handler ends with the
    [OutlineApiError]: it has sent that one request, shows no alert, and
    does not reload the tree. *)
Theorem onMoveClick_failed_move api documentTreeData form log doc rest r :
  checkedIds form <> [] ->
  destinationCollection form <> "" ->
  filterTopLevelSelected documentTreeData (checkedIds form) = doc :: rest ->
  snd (retryFetch (net (length log)
         (post api "documents.move"
            (movePayload (id doc) (destinationCollection form) (destFolderIdOf form))))
         MAX_RETRIES INITIAL_BACKOFF) = Resolved r ->
  ok r = false ->
  onMoveClick JSON_stringify net readDocs (Returns api) documentTreeData form log
  = (log ++ [post api "documents.move"
               (movePayload (id doc) (destinationCollection form) (destFolderIdOf form))],
     [],
     Throws (OutlineApiError (parseApiError JSON_stringify r "Moving document failed")
               (status r))).
Proof.
  intros Hchecked Hdest Htops Hres Hok. unfold onMoveClick.
  destruct (checkedIds form) as [|x ids] eqn:Hids; [contradiction|]. cbn [length Nat.eqb].
  apply String.eqb_neq in Hdest. cbn [truthy]. rewrite Hdest. cbn [negb].
  rewrite Htops. cbn [moveAll]. unfold bind at 1.
  now rewrite (moveDocumentRecursively_stops_at_failure_run JSON_stringify net api doc
                 (destinationCollection form) (destFolderIdOf form) log r Hres Hok).
Qed.

End MoveClickProperties.

Lemma onMoveClick_nothing_to_do_witness :
  exists message,
    onMoveClick sampleStringify obligingNet readNoDocs (Returns sampleApi) [docA]
      (mkMoveForm [] "X" "" "P" "S") []
    = ([], [message], Returns None).
Proof.
  apply (onMoveClick_nothing_to_do sampleStringify obligingNet readNoDocs (Returns sampleApi)
           [docA] (mkMoveForm [] "X" "" "P" "S") []).
  left. reflexivity.
Defined.

Lemma onMoveClick_success_witness :
  [post sampleApi "documents.move" (DocumentsMove "B" "X" (Some "P"));
   post sampleApi "documents.move" (DocumentsMove "D" "X" (Some "B"));
   post sampleApi "collections.documents" (CollectionsDocuments "S" 1 1000)]
  = [] ++ flat_map (fun doc => moveRequests sampleApi doc (destinationCollection sampleForm)
                                 (destFolderIdOf sampleForm))
            (filterTopLevelSelected [docA] (checkedIds sampleForm))
       ++ [post sampleApi "collections.documents"
             (CollectionsDocuments (collectionSelect sampleForm) 1 1000)].
Proof.
  apply (onMoveClick_success sampleStringify obligingNet readNoDocs sampleApi [docA] sampleForm []
           [post sampleApi "documents.move" (DocumentsMove "B" "X" (Some "P"));
            post sampleApi "documents.move" (DocumentsMove "D" "X" (Some "B"));
            post sampleApi "collections.documents" (CollectionsDocuments "S" 1 1000)]
           ["Documents moved successfully!"]
           (Returns (Some (mkBuilt [] [] ∅)))).
  - reflexivity.
  - apply list_elem_of_singleton. reflexivity.
Defined.

Lemma onMoveClick_failed_move_witness :
  onMoveClick sampleStringify (constantNet serverError) readNoDocs (Returns sampleApi) [docA]
    sampleForm []
  = ([post sampleApi "documents.move" (DocumentsMove "B" "X" (Some "P"))], [],
     Throws (OutlineApiError "Error (Status: 500) - boom" 500)).
Proof.
  apply (onMoveClick_failed_move sampleStringify (constantNet serverError) readNoDocs sampleApi
           [docA] sampleForm [] docB [] serverError).
  - discriminate.
  - discriminate.
  - reflexivity.
  - reflexivity.
  - reflexivity.
Defined.

(** ** options.js *)

Lemma length_append s1 s2 :
  String.length (s1 +:+ s2) = String.length s1 + String.length s2.
Proof. induction s1 as [|c s1 IH]; simpl; [reflexivity|now rewrite IH]. Qed.

Lemma length_repeatChar c n : String.length (repeatChar c n) = n.
Proof. induction n as [|n IH]; simpl; [reflexivity|now rewrite IH]. Qed.

Lemma dropChars_split n : forall s,
  n <= String.length s ->
  exists kept, s = kept +:+ dropChars n s
    /\ String.length kept = n
    /\ String.length (dropChars n s) = String.length s - n.
Proof.
  induction n as [|n IH]; intros s Hn.
  - exists "". simpl. split; [reflexivity|]. split; [reflexivity|lia].
  - destruct s as [|c s]; simpl in Hn; [lia|].
    destruct (IH s) as (kept & Hs & Hlen & Hdrop); [lia|].
    exists (String c kept). simpl.
    split; [change (String c s = String c (kept +:+ dropChars n s)); congruence|].
    split; [now rewrite Hlen|exact Hdrop].
Qed.

(** X22: [maskToken] keeps the length of the token; a token of more than
    five characters is shown as stars followed by its last five characters;
    a token of at most five characters is shown as it is. *)
Theorem maskToken_shows_last_five token :
  String.length (maskToken token) = String.length token
  /\ (String.length token <= 5 -> maskToken token = token)
  /\ (5 < String.length token ->
      exists hidden shown,
        token = hidden +:+ shown
        /\ String.length shown = 5
        /\ maskToken token = repeatChar "*" (String.length hidden) +:+ shown).
Proof.
  unfold maskToken, sliceLast.
  destruct (Nat.ltb_spec 5 (String.length token)) as [Hlong|Hshort].
  - destruct (dropChars_split (String.length token - 5) token) as (kept & Hs & Hlen & Hdrop);
      [lia|].
    split; [|split].
    + rewrite length_append, length_repeatChar, Hdrop. lia.
    + lia.
    + intros _. exists kept, (dropChars (String.length token - 5) token).
      split; [exact Hs|]. split; [rewrite Hdrop; lia|]. now rewrite Hlen.
  - split; [reflexivity|]. split; [reflexivity|lia].
Qed.

Lemma maskToken_shows_last_five_witness :
  maskToken "ol_api_secret12345" = "*************12345" /\ maskToken "abc" = "abc".
Proof.
  split.
  - destruct (proj2 (proj2 (maskToken_shows_last_five "ol_api_secret12345")))
      as (hidden & shown & Hsplit & Hlen & Hmask); [simpl; lia|].
    reflexivity.
  - apply (proj1 (proj2 (maskToken_shows_last_five "abc"))). simpl. lia.
Defined.

(** ** Trailing slashes *)

Lemma stripTrailingSlashes_slash s : stripTrailingSlashes (s +:+ "/") = stripTrailingSlashes s.
Proof.
  induction s as [|c s IH]; [reflexivity|]. simpl. now rewrite IH.
Qed.

Lemma stripTrailingSlashes_last s : lastChar (stripTrailingSlashes s) <> Some "/"%char.
Proof.
  induction s as [|c s IH]; simpl; [discriminate|].
  destruct (stripTrailingSlashes s) as [|c' kept] eqn:Hs.
  - destruct (Ascii.eqb_spec c "/"); simpl; congruence.
  - exact IH.
Qed.

Lemma stripTrailingSlashes_fixed s :
  lastChar s <> Some "/"%char -> stripTrailingSlashes s = s.
Proof.
  induction s as [|c s IH]; [reflexivity|]. intros Hlast.
  destruct s as [|c' s].
  - simpl in *. destruct (Ascii.eqb_spec c "/"); [congruence|reflexivity].
  - change (lastChar (String c (String c' s))) with (lastChar (String c' s)) in Hlast.
    change (stripTrailingSlashes (String c (String c' s)))
      with (match stripTrailingSlashes (String c' s) with
            | EmptyString => if Ascii.eqb c "/" then EmptyString else String c EmptyString
            | kept => String c kept
            end).
    now rewrite (IH Hlast).
Qed.

Lemma stripTrailingSlashes_split s :
  exists k, s = stripTrailingSlashes s +:+ repeatChar "/" k.
Proof.
  induction s as [|c s [k IH]]; [now exists 0|]. simpl.
  destruct (stripTrailingSlashes s) as [|c' kept] eqn:Hs.
  - change (s = repeatChar "/" k) in IH. destruct (Ascii.eqb_spec c "/") as [->|Hc].
    + exists (S k). change (String "/" s = String "/" (repeatChar "/" k)). congruence.
    + exists k. change (String c s = String c (repeatChar "/" k)). congruence.
  - exists k. change (String c s = String c (String c' kept +:+ repeatChar "/" k)). congruence.
Qed.

(** X23: the base URL an [OutlineAPI] object holds is the URL it was made
    from without the slashes that URL ends with: it never ends with a
    slash, a URL that ends with none is kept as it is, and adding a slash
    to the URL, or making the object again from its own base URL, gives
    the same object. *)
Theorem newOutlineAPI_base_url outlineUrl apiToken :
  lastChar (baseUrl (newOutlineAPI outlineUrl apiToken)) <> Some "/"%char
  /\ (exists k, outlineUrl = baseUrl (newOutlineAPI outlineUrl apiToken) +:+ repeatChar "/" k)
  /\ (lastChar outlineUrl <> Some "/"%char ->
      baseUrl (newOutlineAPI outlineUrl apiToken) = outlineUrl)
  /\ newOutlineAPI (outlineUrl +:+ "/") apiToken = newOutlineAPI outlineUrl apiToken
  /\ newOutlineAPI (baseUrl (newOutlineAPI outlineUrl apiToken)) apiToken
     = newOutlineAPI outlineUrl apiToken.
Proof.
  unfold newOutlineAPI. simpl. split; [apply stripTrailingSlashes_last|].
  split; [apply stripTrailingSlashes_split|]. split; [apply stripTrailingSlashes_fixed|].
  split; [now rewrite stripTrailingSlashes_slash|].
  now rewrite (stripTrailingSlashes_fixed _ (stripTrailingSlashes_last outlineUrl)).
Qed.

Lemma prefix_split p : forall s, String.prefix p s = true -> exists rest, s = p +:+ rest.
Proof.
  induction p as [|a p IH]; intros s Hp; [now exists s|].
  destruct s as [|b s]; simpl in Hp; [discriminate|].
  destruct (ascii_dec a b) as [->|]; [|discriminate].
  destruct (IH s Hp) as [rest ->]. now exists rest.
Qed.

(** X24: what [saveSettings] hands to the storage was checked first: the
    token is not empty (the full token when the field shows the mask, the
    trimmed value else), the trimmed URL starts with [http://] or
    [https://], and the URL stored is that URL without the slashes it ends
    with. A URL that is only the scheme passes the check and is stored as
    [http:] or [https:]. Trimming takes the white space of [trim] away at
    both ends, the no-break space too. *)
Theorem saveSettings_stores_checked input field u t :
  saveSettings input field = Stored u t ->
  t <> ""
  /\ Some t = (if field_readOnly field then field_fullToken field
              else Some (trim (field_value field)))
  /\ hasScheme (trim input) = true
  /\ u = stripTrailingSlashes (trim input)
  /\ lastChar u <> Some "/"%char
  /\ (hasScheme u = true \/ u = "http:" \/ u = "https:").
Proof.
  unfold saveSettings. intros Hsave.
  destruct (negb (truthy (Some (trim input))) || negb (truthy _)) eqn:Hboth; [discriminate|].
  apply orb_false_iff in Hboth as [_ Htoken]. apply negb_false_iff in Htoken.
  destruct (hasScheme (trim input)) eqn:Hscheme; [|discriminate]. simpl in Hsave.
  injection Hsave as <- <-.
  set (token := if field_readOnly field then field_fullToken field
                else Some (trim (field_value field))) in *.
  destruct token as [tok|]; [|discriminate Htoken]. simpl in *.
  split; [now apply negb_true_iff, String.eqb_neq in Htoken|]. split; [reflexivity|].
  split; [reflexivity|]. split; [reflexivity|]. split; [apply stripTrailingSlashes_last|].
  unfold hasScheme in Hscheme. apply orb_true_iff in Hscheme as [Hp|Hp];
    apply prefix_split in Hp as [rest ->].
  - change ("http://" +:+ rest)
      with (String "h" (String "t" (String "t" (String "p" (String ":"
             (String "/" (String "/" rest))))))).
    cbn [stripTrailingSlashes].
    destruct (stripTrailingSlashes rest) as [|c kept]; cbn; auto.
  - change ("https://" +:+ rest)
      with (String "h" (String "t" (String "t" (String "p" (String "s" (String ":"
             (String "/" (String "/" rest)))))))).
    cbn [stripTrailingSlashes].
    destruct (stripTrailingSlashes rest) as [|c kept]; cbn; auto.
Qed.

Lemma saveSettings_stores_checked_witness :
  "tok" <> ""
  /\ Some "tok" = Some (trim "tok ")
  /\ hasScheme (trim (String "160" "https://wiki.example// ")) = true
  /\ "https://wiki.example"
     = stripTrailingSlashes (trim (String "160" "https://wiki.example// "))
  /\ lastChar "https://wiki.example" <> Some "/"%char
  /\ (hasScheme "https://wiki.example" = true
      \/ "https://wiki.example" = "http:" \/ "https://wiki.example" = "https:").
Proof.
  apply (saveSettings_stores_checked (String "160" "https://wiki.example// ")
           (mkTokenField "tok " false None) "https://wiki.example" "tok").
  reflexivity.
Defined.

(** ** storageManager.js *)

Lemma pick_lookup keys area k :
  pick keys area !! k = if decide (k ∈ keys) then area !! k else None.
Proof.
  unfold pick. rewrite map_lookup_filter. destruct (area !! k) as [v|]; simpl.
  - destruct (decide (k ∈ keys)) as [Hin|Hout].
    + now rewrite option_guard_True.
    + now rewrite option_guard_False.
  - now destruct (decide (k ∈ keys)).
Qed.





Lemma getSettings_lookup st k :
  k <> "collectionId" ->
  exists st',
    storageManager.getSettings None None st = (st', Returns (pick ["collectionId"] (localArea st)
                                                              ∪ pick ["outlineUrl"; "apiToken"] (syncArea st)))
    /\ syncArea st' = syncArea st /\ localArea st' = localArea st
    /\ outlineApiInstance st' = outlineApiInstance st
    /\ (pick ["collectionId"] (localArea st) ∪ pick ["outlineUrl"; "apiToken"] (syncArea st)) !! k
       = if decide (k ∈ ["outlineUrl"; "apiToken"]) then syncArea st !! k else None.
Proof.
  intros Hk. eexists. split; [reflexivity|]. simpl. repeat split.
  rewrite lookup_union_r.
  - apply pick_lookup.
  - rewrite pick_lookup, decide_False; [reflexivity|].
    intros Hin. apply list_elem_of_singleton in Hin. contradiction.
Qed.

(** X27: [getOutlineAPI] makes the client once: when the module holds an
    instance it returns that instance without reading the settings, so a
    later change of the settings does not reach it. Without an instance it
    reads the settings from the sync area: with a URL and a token that are
    not empty it makes, keeps and returns the client for them; else it
    throws and keeps no instance. *)
Theorem getOutlineAPI_makes_client_once syncError localError st :
  (forall api, outlineApiInstance st = Some api ->
     storageManager.getOutlineAPI syncError localError st = (st, Returns api))
  /\ (outlineApiInstance st = None ->
      forall url token,
        syncArea st !! "outlineUrl" = Some url -> url <> "" ->
        syncArea st !! "apiToken" = Some token -> token <> "" ->
        exists st',
          storageManager.getOutlineAPI None None st = (st', Returns (newOutlineAPI url token))
          /\ outlineApiInstance st' = Some (newOutlineAPI url token)
          /\ forall st'' syncError' localError',
               outlineApiInstance st'' = outlineApiInstance st' ->
               storageManager.getOutlineAPI syncError' localError' st''
               = (st'', Returns (newOutlineAPI url token)))
  /\ (outlineApiInstance st = None ->
      truthy (syncArea st !! "outlineUrl") = false \/ truthy (syncArea st !! "apiToken") = false ->
      exists st',
        storageManager.getOutlineAPI None None st
        = (st', Throws (Error "Outline URL or API token is not set. Please configure them in the options page."))
        /\ outlineApiInstance st' = None).
Proof.
  split; [|split].
  - intros api Hinst. unfold storageManager.getOutlineAPI. now rewrite Hinst.
  - intros Hnone url token Hurl Hurl' Htoken Htoken'.
    destruct (getSettings_lookup st "outlineUrl") as (st1 & Hset & _ & _ & _ & Hu); [discriminate|].
    destruct (getSettings_lookup st "apiToken") as (st2 & Hset2 & _ & _ & _ & Ht); [discriminate|].
    rewrite Hset in Hset2. injection Hset2 as <-.
    rewrite decide_True in Hu by (apply elem_of_cons; now left).
    rewrite decide_True in Ht by (apply elem_of_cons; right; apply elem_of_cons; now left).
    unfold storageManager.getOutlineAPI. rewrite Hnone, Hset, Hu, Ht, Hurl, Htoken.
    apply String.eqb_neq in Hurl', Htoken'. cbn [truthy]. rewrite Hurl', Htoken'.
    cbn [negb orb]. eexists. split; [reflexivity|]. split; [reflexivity|].
    intros st'' e1 e2 Hinst. simpl in Hinst. now rewrite Hinst.
  - intros Hnone Hmissing.
    destruct (getSettings_lookup st "outlineUrl") as (st1 & Hset & _ & _ & Hinst & Hu); [discriminate|].
    destruct (getSettings_lookup st "apiToken") as (st2 & Hset2 & _ & _ & _ & Ht); [discriminate|].
    rewrite Hset in Hset2. injection Hset2 as <-.
    rewrite decide_True in Hu by (apply elem_of_cons; now left).
    rewrite decide_True in Ht by (apply elem_of_cons; right; apply elem_of_cons; now left).
    unfold storageManager.getOutlineAPI. rewrite Hnone, Hset, Hu, Ht.
    exists st1. split; [|now rewrite Hinst].
    destruct Hmissing as [-> | ->]; simpl; [reflexivity|now rewrite orb_true_r].
Qed.

Lemma getOutlineAPI_makes_client_once_witness :
  exists st',
    storageManager.getOutlineAPI None None configuredStorage
    = (st', Returns (mkOutlineAPI "https://wiki.example" "token"))
    /\ outlineApiInstance st' = Some (mkOutlineAPI "https://wiki.example" "token")
    /\ forall st'' syncError' localError',
         outlineApiInstance st'' = outlineApiInstance st' ->
         storageManager.getOutlineAPI syncError' localError' st''
         = (st'', Returns (mkOutlineAPI "https://wiki.example" "token")).
Proof.
  apply (proj1 (proj2 (getOutlineAPI_makes_client_once None None configuredStorage))
           eq_refl "https://wiki.example/" "token").
  - reflexivity.
  - discriminate.
  - reflexivity.
  - discriminate.
Defined.

(** ** notificationManager.js *)

(** X28: a click on a notification that was created with a document URL
    opens that URL and forgets it, so that a second click opens nothing; a
    notification created without a URL leaves the map as it is, and
    creating or clicking one notification does not touch the URL kept for
    another. *)
Theorem notification_click_opens_once nid url notificationUrlMap :
  url <> "" ->
  onNotificationClicked nid (createNotification nid (Some url) notificationUrlMap)
  = (delete nid notificationUrlMap, Some url)
  /\ onNotificationClicked nid (delete nid notificationUrlMap)
     = (delete nid notificationUrlMap, None)
  /\ createNotification nid None notificationUrlMap = notificationUrlMap
  /\ forall other, other <> nid ->
       createNotification nid (Some url) notificationUrlMap !! other
       = notificationUrlMap !! other
       /\ fst (onNotificationClicked nid notificationUrlMap) !! other
          = notificationUrlMap !! other.
Proof.
  intros Hurl. apply String.eqb_neq in Hurl.
  assert (Htruthy : truthy (Some url) = true) by (simpl; now rewrite Hurl).
  unfold onNotificationClicked, createNotification. rewrite Htruthy.
  change (default "" (Some url)) with url.
  rewrite lookup_insert_eq, Htruthy, lookup_delete_eq, delete_insert_eq.
  split; [reflexivity|]. split; [reflexivity|]. split; [reflexivity|].
  intros other Hother. split; [now rewrite lookup_insert_ne|].
  destruct (truthy (notificationUrlMap !! nid)); cbn [fst];
    [now rewrite lookup_delete_ne|reflexivity].
Qed.

Lemma notification_click_opens_once_witness :
  onNotificationClicked "n1" (createNotification "n1" (Some "https://wiki.example/doc/1") ∅)
  = (delete "n1" ∅, Some "https://wiki.example/doc/1").
Proof.
  apply (notification_click_opens_once "n1" "https://wiki.example/doc/1" ∅). discriminate.
Defined.
